(** * openage: game initialisation and teardown (src/openage/init.cpp)

    A shallow embedding of [openage::init] and [openage::destroy]: the
    calls into the engine and into OpenGL are recorded as a trace of events,
    the module's global variables are fields of an explicit state, and the
    arithmetic on colour channels uses the IEEE-754 operations of
    [SpecFloat] (binary64 for the C++ [double] division, binary32 for the
    [GLfloat] it is stored in). *)

From Stdlib Require Import ZArith QArith Qabs Floats.SpecFloat.
From Stdlib Require Import Ascii String Permutation Sorted.
From stdpp Require Import gmap strings list.

Open Scope Z_scope.

(* ===================================================================== *)
(** * Floating point: [double] arithmetic stored into [GLfloat]         *)
(* ===================================================================== *)

Module GL.

(** binary64 ([double]) and binary32 ([GLfloat]) formats. *)
Definition dprec : Z := 53.
Definition demax : Z := 1024.
Definition fprec : Z := 24.
Definition femax : Z := 128.

(** Integral conversion [unsigned int -> double]; exact below [2^53]. *)
Definition uint_to_double (n : Z) : spec_float :=
  binary_normalize dprec demax n 0 false.

(** The literal [255.0] (and [254.0]): a [double]. *)
Definition double_lit (n : Z) : spec_float := uint_to_double n.

(** [double / double]. *)
Definition ddiv (x y : spec_float) : spec_float := SFdiv dprec demax x y.

(** Narrowing conversion [double -> GLfloat], round to nearest even. *)
Definition double_to_float (d : spec_float) : spec_float :=
  match d with
  | S754_finite s m e => binary_normalize fprec femax (cond_Zopp s (Zpos m)) e s
  | _ => d
  end.

(** Strict order on [GLfloat]. *)
Definition fltb (x y : spec_float) : bool := SFltb x y.

(** The real number a finite float denotes. *)
Definition to_Q (x : spec_float) : Q :=
  match x with
  | S754_finite s m e =>
      let v := (if 0 <=? e
                then inject_Z (Zpos m * 2 ^ e)
                else Qmake (Zpos m) (Z.to_pos (2 ^ (- e))))%Z in
      if s then Qopp v else v
  | _ => 0%Q
  end.

Definition is_finite (x : spec_float) : bool :=
  match x with
  | S754_zero _ | S754_finite _ _ _ => true
  | _ => false
  end.

(** [1.0f]. *)
Definition fone : spec_float := S754_finite false 8388608 (-23).

End GL.

(** A cell of a [new GLfloat[n]] array: [None] until it is written. *)
Abbreviation GLfloat_cell := (option spec_float).

(* ===================================================================== *)
(** * [sscanf] for the directives used by [player_color_line::fill]      *)
(* ===================================================================== *)

Module Scanf.

(** A format is a list of directives: [%u] or an ordinary character. *)
Inductive directive :=
| ConvU
| Lit (c : ascii).

(** C's [isspace] in the "C" locale. *)
Definition is_space (c : ascii) : bool :=
  let n := nat_of_ascii c in
  ((n =? 32) || ((9 <=? n) && (n <=? 13)))%nat.

Definition digit_of (c : ascii) : option Z :=
  let n := Z.of_nat (nat_of_ascii c) in
  if (48 <=? n) && (n <=? 57) then Some (n - 48) else None.

Fixpoint skip_space (s : string) : string :=
  match s with
  | String c r => if is_space c then skip_space r else s
  | EmptyString => s
  end.

(** The longest run of decimal digits at the head of [s], accumulated
    into [acc]; also says whether any digit was read. *)
Fixpoint scan_digits (s : string) (acc : Z) (any : bool) : Z * bool * string :=
  match s with
  | String c r =>
      match digit_of c with
      | Some d => scan_digits r (10 * acc + d) true
      | None => (acc, any, s)
      end
  | EmptyString => (acc, any, s)
  end.

(** The number that [strtoul] makes of a digit string of value [v], with or
    without a minus sign, as an [unsigned long] of 64 bits: a value that does
    not fit gives [ULONG_MAX], a minus sign negates modulo [2^64].  ISO C
    leaves a [%u] whose number does not fit the object open; this is what
    glibc does. *)
Definition strtoul (neg : bool) (v : Z) : Z :=
  if 2 ^ 64 <=? v then 2 ^ 64 - 1 else (if neg then - v else v) mod 2 ^ 64.

(** The number is stored into an [unsigned int]. *)
Definition to_uint (z : Z) : Z := z mod 2 ^ 32.

(** [%u]: skip white space, accept an optional sign, then at least one
    digit.  The value is stored into a 32-bit unsigned object. *)
Definition scan_u (s : string) : option (Z * string) :=
  let s0 := skip_space s in
  let '(neg, s1) :=
    match s0 with
    | String "-"%char r => (true, r)
    | String "+"%char r => (false, r)
    | _ => (false, s0)
    end in
  let '(v, any, rest) := scan_digits s1 0 false in
  if any then Some (to_uint (strtoul neg v), rest) else None.

(** An ordinary character must match the next input character. *)
Definition scan_lit (c : ascii) (s : string) : option string :=
  match s with
  | String c' r => if Ascii.eqb c c' then Some r else None
  | EmptyString => None
  end.

(** [sscanf(s, fmt, ...)]: the values converted, in order, up to the
    first directive that fails.  The C return value is their number. *)
Fixpoint sscanf (fmt : list directive) (s : string) : list Z :=
  match fmt with
  | [] => []
  | ConvU :: fmt' =>
      match scan_u s with
      | Some (v, rest) => v :: sscanf fmt' rest
      | None => []
      end
  | Lit c :: fmt' =>
      match scan_lit c s with
      | Some rest => sscanf fmt' rest
      | None => []
      end
  end.

(** ["%u=%u,%u,%u,%u"] *)
Definition color_line_format : list directive :=
  [ConvU; Lit "="%char; ConvU; Lit ","%char; ConvU; Lit ","%char; ConvU;
   Lit ","%char; ConvU].

End Scanf.

(* ===================================================================== *)
(** * Errors                                                             *)
(* ===================================================================== *)

Inductive error :=
| InvalidTerrainId       (* set_tile: id outside the loaded table *)
| MalformedLine          (* read_csv_file: a line's fill() failed *)
| FileError              (* a metadata file could not be loaded *)
| NullTerrain.           (* the [terrain] global used before it is set *)

Abbreviation Result A := (error + A)%type.

(* ===================================================================== *)
(** * Player colours                                                     *)
(* ===================================================================== *)

(** [struct player_color_line : csv_line_data { unsigned int r, g, b, a; }]
    with the inherited [unsigned int idx]. *)
Record player_color_line := {
  idx : Z;
  r : Z;
  g : Z;
  b : Z;
  a : Z
}.

(** A line object before [fill] has run on it. *)
Definition blank_line : player_color_line :=
  {| idx := 0; r := 0; g := 0; b := 0; a := 0 |}.

(** [player_color_line::fill]: the fields that [sscanf] converted are
    overwritten; the result is [0] iff all five were. *)
Definition fill (this : player_color_line) (by_line : string)
  : Z * player_color_line :=
  let vs := Scanf.sscanf Scanf.color_line_format by_line in
  let this' :=
    {| idx := default (idx this) (vs !! 0%nat);
       r := default (r this) (vs !! 1%nat);
       g := default (g this) (vs !! 2%nat);
       b := default (b this) (vs !! 3%nat);
       a := default (a this) (vs !! 4%nat) |} in
  if Z.of_nat (length vs) =? 5 then (0, this') else (-1, this').

(** Modelled from the spec: [engine::util::csv_line_data] (engine/util/file.h)
    is missing.  A record type that the loader can read exposes [fill], which
    parses one line into the record and returns 0 on success ([dump] only
    logs the record).  [csv_new] is an element of the array the loader
    allocates, before it is filled. *)
Class csv_line_data (T : Type) := {
  csv_new : T;
  csv_fill : T → string → Z * T
}.

#[global] Instance player_color_line_csv : csv_line_data player_color_line :=
  {| csv_new := blank_line; csv_fill := fill |}.

(** Modelled from the spec: [engine::util::read_csv_file] (engine/util/file.h)
    is missing.  The loader returns the array of records and its count, one
    record per line, each produced by the record type's [fill]; a line whose
    [fill] fails makes the whole load fail. *)
Fixpoint read_csv_file `{csv_line_data T} (lines : list string) : Result (list T) :=
  match lines with
  | [] => inr []
  | l :: ls =>
      let '(rc, rec) := csv_fill csv_new l in
      if rc =? 0
      then match read_csv_file ls with
           | inr recs => inr (rec :: recs)
           | inl e => inl e
           end
      else inl MalformedLine
  end.

(** [line->r / 255.0] stored into a [GLfloat]. *)
Definition channel (c : Z) : spec_float :=
  GL.double_to_float (GL.ddiv (GL.uint_to_double c) (GL.double_lit 255)).

(** One iteration of the conversion loop: the four stores for entry [i]. *)
Definition store_color (player_color_file : list player_color_line)
    (playercolors : list GLfloat_cell) (i : nat) : list GLfloat_cell :=
  match player_color_file !! i with
  | Some line =>
      let p0 := <[(i * 4)%nat := Some (channel (r line))]> playercolors in
      let p1 := <[(i * 4 + 1)%nat := Some (channel (g line))]> p0 in
      let p2 := <[(i * 4 + 2)%nat := Some (channel (b line))]> p1 in
      <[(i * 4 + 3)%nat := Some (channel (a line))]> p2
  | None => playercolors
  end.

(** [GLfloat *playercolors = new GLfloat[pcolor_count*4];] followed by
    [for (size_t i = 0; i < pcolor_count; i++) { ... }]. *)
Definition convert_playercolors (player_color_file : list player_color_line)
    (pcolor_count : nat) : list GLfloat_cell :=
  foldl (store_color player_color_file)
        (replicate (pcolor_count * 4) None)
        (seq 0 pcolor_count).

(** Slot [k] of a colour table: the four consecutive floats at [4k]. *)
Definition slot (table : list GLfloat_cell) (k : nat)
  : option (spec_float * spec_float * spec_float * spec_float) :=
  match table !! (k * 4)%nat, table !! (k * 4 + 1)%nat,
        table !! (k * 4 + 2)%nat, table !! (k * 4 + 3)%nat with
  | Some (Some x), Some (Some y), Some (Some z), Some (Some w) => Some (x, y, z, w)
  | _, _, _, _ => None
  end.

(** The four cells of slot [i] hold the converted channels of [line]. *)
Definition holds_at (table : list GLfloat_cell) (i : nat)
    (line : player_color_line) : Prop :=
  table !! (i * 4)%nat = Some (Some (channel (r line)))
  ∧ table !! (i * 4 + 1)%nat = Some (Some (channel (g line)))
  ∧ table !! (i * 4 + 2)%nat = Some (Some (channel (b line)))
  ∧ table !! (i * 4 + 3)%nat = Some (Some (channel (a line))).

(** A [GLfloat] is the rational [q] up to the rounding of the format on
    [[0, 1]]: it is finite and within [2^-25] of [q]. *)
Definition approximates (x : spec_float) (q : Q) : Prop :=
  GL.is_finite x = true ∧ (Qabs (GL.to_Q x - q) <= 1 # 33554432)%Q.

(** The normalised quadruple of an entry. *)
Definition normalized (line : player_color_line)
  : spec_float * spec_float * spec_float * spec_float :=
  (channel (r line), channel (g line), channel (b line), channel (a line)).

(* ===================================================================== *)
(** * Terrain                                                            *)
(* ===================================================================== *)

(** Modelled from the spec: [engine::TerrainType] (engine/terrain.h) is
    missing; a record has an id, a texture reference and a blend priority. *)
Record TerrainType := {
  tt_id : Z;
  tt_texture_ref : Z;
  blend_priority : Z
}.

(** Modelled from the spec: [engine::BlendingMode] (engine/terrain.h) is
    missing; a record has an id and a description of the transition. *)
Record BlendingMode := {
  bm_id : Z;
  bm_texture_ref : Z
}.

(** [coord::tile]: the two axial coordinates of a grid cell. *)
Record tile := {
  ne : Z;
  se : Z
}.

(** Modelled from the spec: the blend priority resolver (part of the
    [Terrain] constructor, engine/terrain.cpp, missing) is a stable sort of
    the terrain types by descending [blend_priority].  Insertion from the
    right: a record goes in front of the first one whose priority is not
    greater than its own. *)
Fixpoint priority_insert (t : TerrainType) (l : list TerrainType)
  : list TerrainType :=
  match l with
  | [] => [t]
  | u :: l' =>
      if blend_priority t <? blend_priority u
      then u :: priority_insert t l'
      else t :: l
  end.

Definition priority_sort (l : list TerrainType) : list TerrainType :=
  foldr priority_insert [] l.

(** [x] may stand before [y] in the ordering: its priority is not smaller. *)
Definition before (x y : TerrainType) : Prop :=
  blend_priority y ≤ blend_priority x.

Definition blend_priority_order (terrain_types : list TerrainType) : list Z :=
  map tt_id (priority_sort terrain_types).

(** Modelled from the spec: [engine::Terrain] (engine/terrain.h) is missing.
    A terrain is a square grid of fixed side length with the resolved
    terrain-type id of every tile that has been set, the sizes of the two
    metadata tables and the priority ordering. *)
Record Terrain := {
  terrain_size : Z;
  terrain_type_count : Z;
  blendmode_count : Z;
  tiles : gmap (Z * Z) Z;
  priority_ordering : list Z
}.

(** Modelled from the spec: [new Terrain(size, ttype_count, terrain_types,
    bmode_count, blending_modes)]. *)
Definition new_Terrain (sz : Z) (ttype_count : Z)
    (terrain_types : list TerrainType) (bmode_count : Z)
    (blending_modes : list BlendingMode) : Terrain :=
  {| terrain_size := sz;
     terrain_type_count := ttype_count;
     blendmode_count := bmode_count;
     tiles := ∅;
     priority_ordering := blend_priority_order terrain_types |}.

(** Modelled from the spec: [Terrain::get_size]. *)
Definition get_size (T : Terrain) : Z := terrain_size T.

Definition tile_key (pos : tile) : Z * Z := (ne pos, se pos).

(** Modelled from the spec: [Terrain::set_tile(position, terrain_type_id)]
    fails with [InvalidTerrainId] when the id is outside the loaded table's
    range [[0, terrain_type_count)], and otherwise stores the id. *)
Definition with_tiles (m : gmap (Z * Z) Z) (T : Terrain) : Terrain :=
  {| terrain_size := terrain_size T;
     terrain_type_count := terrain_type_count T;
     blendmode_count := blendmode_count T;
     tiles := m;
     priority_ordering := priority_ordering T |}.

Definition set_tile (T : Terrain) (pos : tile) (id : Z) : Result Terrain :=
  if (0 <=? id) && (id <? terrain_type_count T)
  then inr (with_tiles (<[tile_key pos := id]> (tiles T)) T)
  else inl InvalidTerrainId.

(** [unsigned int terrain_data[20][20]] *)
Definition terrain_data : list (list Z) := [
  [  7;  7;  7;  7;  7;  7;  7;  7;  7;  7;  7;  7;  7;  7;  7;  7;  7;  7;  7;  7];
  [  7;  7;  7;  7;  7;  7;  7;  7;  7;  7;  7;  7;  7;  7;  7;  7;  7;  7;  7;  7];
  [  7;  7;  7;  7;  7;  7;  7;  7;  7;  7;  7;  7;  7;  7;  7;  7;  7;  7;  7;  7];
  [  7;  7;  7;  7;  7;  7;  7;  7;  7;  7;  7;  7; 11; 11; 11;  7;  7;  7;  7;  7];
  [  7;  7;  7;  7;  7;  7;  7;  7;  7;  7;  7;  7; 11; 11; 11; 11; 11;  7;  7;  7];
  [  7;  7; 20; 20; 20;  7;  7;  7;  7;  7;  7;  7; 11; 11; 11; 11; 11; 11;  7;  7];
  [  7;  7; 20;  7;  7; 20; 20;  7;  7;  7;  7;  7; 11; 11; 11; 11; 11;  7;  7;  7];
  [  7;  7; 20;  7;  7;  7;  7;  7;  7;  7;  7;  7; 11; 11; 11;  7;  7;  7;  7;  7];
  [  7; 20; 20; 20;  7;  7;  7;  7;  7;  7;  7;  7;  7;  7;  7;  7;  7;  7;  7;  7];
  [  7;  7; 20;  7;  7;  7;  7;  7;  7;  7;  7;  7;  7;  7;  7;  7;  7;  7;  7;  7];
  [  7;  7; 20;  7;  7;  7;  9;  9;  7;  7;  7;  7;  7;  7;  7;  7;  7;  7;  7;  7];
  [  7;  7;  7;  7;  7;  7;  9;  9;  7;  7;  7;  7;  7;  7;  7;  7;  7;  7;  7;  7];
  [  7;  7;  7;  7; 13;  7;  9;  7;  7; 12; 12;  7;  7;  7;  7;  7;  7;  7;  7;  7];
  [  7;  7;  7;  7; 13;  9;  9;  7; 12;  7;  7;  7;  7;  7;  7;  7;  7;  7;  7;  7];
  [  7;  7;  7;  7; 13;  7;  7;  7; 12;  7;  7;  7;  7; 17; 17; 17;  7;  7;  7;  7];
  [  7;  7;  7;  7; 13;  7;  7;  7; 12;  7;  7;  7;  7; 18; 18; 18;  7;  7;  7;  7];
  [  7;  7; 12; 12; 12; 12; 12; 12; 12;  7;  7;  7;  7; 19; 19; 19;  7;  7;  7;  7];
  [  7;  7;  7;  7;  7;  7;  7;  7;  7;  7;  7;  7;  7;  3;  3;  3;  7;  7;  7;  7];
  [  7;  7;  7;  7;  7;  7;  7;  7;  7;  7;  7;  7;  7;  3;  3;  3;  3; 14; 14;  7];
  [  7;  7;  7;  7;  7;  7;  7;  7;  7;  7;  7;  7;  7;  7;  7;  3;  3;  7;  7;  7]
].

(** [terrain_data[i][j]]; both indices are below 20 wherever it is used. *)
Definition terrain_data_at (i j : Z) : Z :=
  default 0 (row ← terrain_data !! Z.to_nat i; row !! Z.to_nat j).

(* ===================================================================== *)
(** * Events: the calls that leave the module                            *)
(* ===================================================================== *)

Inductive texture_var := gaben | university.
Inductive texture_mode := PLAYERCOLORED.
Inductive texture_array := terrain_textures | blending_textures.
Inductive shader_stage := GL_VERTEX_SHADER | GL_FRAGMENT_SHADER.
Inductive shader_var :=
| plaintexture_vert | plaintexture_frag | teamcolor_frag
| alphamask_vert | alphamask_frag.
Inductive program_var := texture_shader | teamcolor_shader | alphamask_shader.
Inductive callback_list := on_input | on_engine_tick_list | on_drawgame | on_drawhud.
Inductive handler := input_handler | on_engine_tick | draw_method | hud_draw_method.

(** A resolved handle remembers the program it was looked up in and the
    name it was looked up by. *)
Inductive location :=
| UniformLoc (p : program_var) (name : string)
| AttributeLoc (p : program_var) (name : string).

(** One constructor per call that [init] or [destroy] makes into the
    engine, the file system or OpenGL.  [init.cpp] tests none of their
    results, so a call is recorded and assumed to return; the three loads
    of [read_csv_file] and [Terrain::set_tile] are the calls that can stop
    [init], and they are modelled with their outcome. *)
Inductive event :=
| NewTexture (v : texture_var) (path : string) (args : option (bool * texture_mode))
| ReadCsvFile (path : string)
| NewTerrain (sz ttype_count bmode_count : Z)
| SetTile (pos : tile) (texid : Z)
| NewFloatArray (n : nat)
| ReadWholeFile (path : string)
| NewShader (v : shader_var) (stage : shader_stage) (path : string)
| DeleteSource (path : string)
| NewProgram (p : program_var) (vert frag : shader_var)
| Link (p : program_var)
| GetUniformId (p : program_var) (name : string)
| GetAttributeId (p : program_var) (name : string)
| Use (p : program_var)
| StopUsing (p : program_var)
| Uniform1i (loc : location) (v : Z)
| Uniform1f (loc : location) (v : spec_float)
| Uniform4fv (loc : location) (count : nat) (value : list GLfloat_cell)
| DeleteFloatArray
| DeleteShader (v : shader_var)
| PushBack (l : callback_list) (h : handler)
| DeleteTexture (v : texture_var)
| DeleteProgram (p : program_var)
| DeleteArrayEntry (arr : texture_array) (i : Z)
| DeleteTerrainPriorityList.

#[global] Instance texture_var_eq_dec : EqDecision texture_var.
Proof. solve_decision. Defined.
#[global] Instance texture_array_eq_dec : EqDecision texture_array.
Proof. solve_decision. Defined.
#[global] Instance shader_var_eq_dec : EqDecision shader_var.
Proof. solve_decision. Defined.
#[global] Instance program_var_eq_dec : EqDecision program_var.
Proof. solve_decision. Defined.

(* ===================================================================== *)
(** * State and the monad of [init] and [destroy]                        *)
(* ===================================================================== *)

(** The module's globals that the two functions read or write, and the
    trace of calls made so far.  [terrain_texture_count] is declared in a
    header that is missing; [blend_mode_count] is defined in this file. *)
Record State := {
  trace : list event;
  terrain : option Terrain;
  blend_mode_count : Z;
  terrain_texture_count : Z
}.

(** [unsigned int blend_mode_count = 9;] *)
Definition initial_state (ttc : Z) : State :=
  {| trace := []; terrain := None;
     blend_mode_count := 9; terrain_texture_count := ttc |}.

Definition M (A : Type) : Type := State → Result A * State.

#[global] Instance M_ret : MRet M := λ A x st, (inr x, st).

#[global] Instance M_bind : MBind M := λ A B f m st,
  match m st with
  | (inr x, st') => f x st'
  | (inl e, st') => (inl e, st')
  end.

(** The state after more calls have been made. *)
Definition st_emit (evs : list event) (st : State) : State :=
  {| trace := trace st ++ evs; terrain := terrain st;
     blend_mode_count := blend_mode_count st;
     terrain_texture_count := terrain_texture_count st |}.

(** The state after an assignment to the [terrain] global. *)
Definition st_terrain (T : Terrain) (st : State) : State :=
  {| trace := trace st; terrain := Some T;
     blend_mode_count := blend_mode_count st;
     terrain_texture_count := terrain_texture_count st |}.

Definition emit (e : event) : M unit := λ st, (inr tt, st_emit [e] st).

Definition lift_result {A} (res : Result A) : M A := λ st, (res, st).

Definition get_terrain : M Terrain := λ st,
  match terrain st with
  | Some T => (inr T, st)
  | None => (inl NullTerrain, st)
  end.

Definition put_terrain (T : Terrain) : M unit := λ st, (inr tt, st_terrain T st).

Definition gets {A} (f : State → A) : M A := λ st, (inr (f st), st).

(** [for (x : l) body] *)
Fixpoint foreach {A} (l : list A) (body : A → M unit) : M unit :=
  match l with
  | [] => mret tt
  | x :: l' => body x ;; foreach l' body
  end.

(** [for (i = 0; i < n; i++) body] for a bound that the body leaves alone. *)
Definition for_upto (n : Z) (body : Z → M unit) : M unit :=
  foreach (seqZ 0 n) body.

(* ===================================================================== *)
(** * The files read by [init]                                           *)
(* ===================================================================== *)

(** What the loader finds on disk.  The record types of the two terrain
    tables and their [fill] are defined in missing engine headers, so these
    two files are given by the outcome of loading them; the palette is
    given by its lines, which [player_color_line::fill] parses. *)
Record World := {
  terrain_meta : Result (list TerrainType);
  blending_meta : Result (list BlendingMode);
  player_color_palette : list string
}.

(* ===================================================================== *)
(** * [openage::init]                                                    *)
(* ===================================================================== *)

Definition Terrain_set_tile (pos : tile) (texid : Z) : M unit :=
  emit (SetTile pos texid) ;;
  T ← get_terrain;
  T' ← lift_result (set_tile T pos texid);
  put_terrain T'.

Definition Terrain_get_size : M Z :=
  T ← get_terrain; mret (get_size T).

(** Lines 52-66: the two textures, the two tables, [new Terrain]. *)
Definition init_load (w : World) : M unit :=
  emit (NewTexture gaben "gaben.png" None) ;;
  emit (NewTexture university "age/raw/Data/graphics.drs/3836.slp.png"
          (Some (true, PLAYERCOLORED))) ;;
  emit (ReadCsvFile "age/processed/terrain_meta.docx") ;;
  terrain_types ← lift_result (terrain_meta w);
  let ttype_count := Z.of_nat (length terrain_types) in
  emit (ReadCsvFile "age/processed/blending_meta.docx") ;;
  blending_modes ← lift_result (blending_meta w);
  let bmode_count := Z.of_nat (length blending_modes) in
  emit (NewTerrain 20 ttype_count bmode_count) ;;
  put_terrain (new_Terrain 20 ttype_count terrain_types bmode_count blending_modes).

(** Lines 70-77: set the terrain types according to the data array.  The
    bound [(int) terrain->get_size()] is the same at every test, since no
    call changes the side length, so it is read once. *)
Definition init_tiles : M unit :=
  sz ← Terrain_get_size;
  for_upto sz (λ pos_ne,
    for_upto sz (λ pos_se,
      let texid := terrain_data_at pos_ne pos_se in
      Terrain_set_tile {| ne := pos_ne; se := pos_se |} texid)).

(** Lines 103-114: the player colours, loaded and converted. *)
Definition init_player_colors (w : World) : M (list GLfloat_cell) :=
  emit (ReadCsvFile "age/processed/player_color_palette.pal") ;;
  player_color_file ←
    lift_result (read_csv_file (T := player_color_line) (player_color_palette w));
  let pcolor_count := length player_color_file in
  emit (NewFloatArray (pcolor_count * 4)) ;;
  mret (convert_playercolors player_color_file pcolor_count).

(** [new shader::Shader(stage, read_whole_file(path))] and the release of
    the source text. *)
Definition load_shader (v : shader_var) (stage : shader_stage) (path : string)
  : M unit :=
  emit (ReadWholeFile path) ;;
  emit (NewShader v stage path) ;;
  emit (DeleteSource path).

Definition get_uniform_id (p : program_var) (name : string) : M location :=
  emit (GetUniformId p name) ;; mret (UniformLoc p name).

Definition get_attribute_id (p : program_var) (name : string) : M location :=
  emit (GetAttributeId p name) ;; mret (AttributeLoc p name).

(** [254.0/255.0] passed as a [GLfloat]. *)
Definition alpha_marker : spec_float :=
  GL.double_to_float (GL.ddiv (GL.double_lit 254) (GL.double_lit 255)).

(** Lines 117-138: the five shader objects. *)
Definition init_shader_units : M unit :=
  load_shader plaintexture_vert GL_VERTEX_SHADER "shaders/maptexture.vert.glsl" ;;
  load_shader plaintexture_frag GL_FRAGMENT_SHADER "shaders/maptexture.frag.glsl" ;;
  load_shader teamcolor_frag GL_FRAGMENT_SHADER "shaders/teamcolors.frag.glsl" ;;
  load_shader alphamask_vert GL_VERTEX_SHADER "shaders/alphamask.vert.glsl" ;;
  load_shader alphamask_frag GL_FRAGMENT_SHADER "shaders/alphamask.frag.glsl".

(** Lines 142-149: the program for rendering simple textures. *)
Definition init_texture_shader : M unit :=
  emit (NewProgram texture_shader plaintexture_vert plaintexture_frag) ;;
  emit (Link texture_shader) ;;
  texture ← get_uniform_id texture_shader "texture";
  tex_coord ← get_attribute_id texture_shader "tex_coordinates";
  emit (Use texture_shader) ;;
  emit (Uniform1i texture 0) ;;
  emit (StopUsing texture_shader).

(** Lines 152-167: the program for tinting with team colours. *)
Definition init_teamcolor_shader (playercolors : list GLfloat_cell) : M unit :=
  emit (NewProgram teamcolor_shader plaintexture_vert teamcolor_frag) ;;
  emit (Link teamcolor_shader) ;;
  texture ← get_uniform_id teamcolor_shader "texture";
  tex_coord ← get_attribute_id teamcolor_shader "tex_coordinates";
  player_id_var ← get_uniform_id teamcolor_shader "player_number";
  alpha_marker_var ← get_uniform_id teamcolor_shader "alpha_marker";
  player_color_var ← get_uniform_id teamcolor_shader "player_color";
  emit (Use teamcolor_shader) ;;
  emit (Uniform1i texture 0) ;;
  emit (Uniform1f alpha_marker_var alpha_marker) ;;
  emit (Uniform4fv player_color_var 64 playercolors) ;;
  emit (StopUsing teamcolor_shader) ;;
  emit DeleteFloatArray.

(** Lines 170-181: the program for alpha-masked textures. *)
Definition init_alphamask_shader : M unit :=
  emit (NewProgram alphamask_shader alphamask_vert alphamask_frag) ;;
  emit (Link alphamask_shader) ;;
  base_coord ← get_attribute_id alphamask_shader "base_tex_coordinates";
  mask_coord ← get_attribute_id alphamask_shader "mask_tex_coordinates";
  show_mask ← get_uniform_id alphamask_shader "show_mask";
  base_texture ← get_uniform_id alphamask_shader "base_texture";
  mask_texture ← get_uniform_id alphamask_shader "mask_texture";
  emit (Use alphamask_shader) ;;
  emit (Uniform1i base_texture 0) ;;
  emit (Uniform1i mask_texture 1) ;;
  emit (StopUsing alphamask_shader).

(** Lines 183-188: after linking, the shaders are no longer necessary. *)
Definition init_delete_shaders : M unit :=
  emit (DeleteShader plaintexture_vert) ;;
  emit (DeleteShader plaintexture_frag) ;;
  emit (DeleteShader teamcolor_frag) ;;
  emit (DeleteShader alphamask_vert) ;;
  emit (DeleteShader alphamask_frag).

(** Lines 190-194: the engine callbacks. *)
Definition init_callbacks : M unit :=
  emit (PushBack on_input input_handler) ;;
  emit (PushBack on_engine_tick_list on_engine_tick) ;;
  emit (PushBack on_drawgame draw_method) ;;
  emit (PushBack on_drawhud hud_draw_method).

(** [void init()] *)
Definition init (w : World) : M unit :=
  init_load w ;;
  init_tiles ;;
  playercolors ← init_player_colors w;
  init_shader_units ;;
  init_texture_shader ;;
  init_teamcolor_shader playercolors ;;
  init_alphamask_shader ;;
  init_delete_shaders ;;
  init_callbacks.

(* ===================================================================== *)
(** * [openage::destroy]                                                 *)
(* ===================================================================== *)

(** [void destroy()] *)
Definition destroy : M unit :=
  emit (DeleteTexture gaben) ;;
  emit (DeleteTexture university) ;;
  emit (DeleteProgram texture_shader) ;;
  emit (DeleteProgram teamcolor_shader) ;;
  emit (DeleteProgram alphamask_shader) ;;
  n_terrain ← gets terrain_texture_count;
  for_upto n_terrain (λ i, emit (DeleteArrayEntry terrain_textures i)) ;;
  n_blend ← gets blend_mode_count;
  for_upto n_blend (λ i, emit (DeleteArrayEntry blending_textures i)) ;;
  emit DeleteTerrainPriorityList.

(** Running a computation: its outcome and the events it added. *)
Definition run {A} (m : M A) (st : State) : Result A * State := m st.

Definition events_of {A} (m : M A) (st : State) : list event :=
  drop (length (trace st)) (trace (snd (m st))).

(* ===================================================================== *)
(** * Reading a trace                                                    *)
(* ===================================================================== *)

(** The phases of initialisation. *)
Inductive phase :=
| StandaloneTextures
| TerrainMetadata
| TerrainGrid
| PlayerColorTable
| ShaderAssembly
| CallbackRegistration
| Teardown.

Definition phase_of (e : event) : phase :=
  match e with
  | NewTexture _ _ _ => StandaloneTextures
  | ReadCsvFile path =>
      if String.eqb path "age/processed/player_color_palette.pal"
      then PlayerColorTable else TerrainMetadata
  | NewTerrain _ _ _ | SetTile _ _ => TerrainGrid
  | NewFloatArray _ => PlayerColorTable
  | ReadWholeFile _ | NewShader _ _ _ | DeleteSource _
  | NewProgram _ _ _ | Link _ | GetUniformId _ _ | GetAttributeId _ _
  | Use _ | StopUsing _ | Uniform1i _ _ | Uniform1f _ _ | Uniform4fv _ _ _
  | DeleteFloatArray | DeleteShader _ => ShaderAssembly
  | PushBack _ _ => CallbackRegistration
  | DeleteTexture _ | DeleteProgram _ | DeleteArrayEntry _ _
  | DeleteTerrainPriorityList => Teardown
  end.

(** The [set_tile] calls of a trace. *)
Definition set_tile_calls (evs : list event) : list (tile * Z) :=
  omap (λ e, match e with SetTile pos id => Some (pos, id) | _ => None end) evs.

(** The cells of a square grid of side [sz], row by row. *)
Definition grid_cells (sz : Z) : list tile :=
  i ← seqZ 0 sz; j ← seqZ 0 sz; [{| ne := i; se := j |}].

(** The life of the shader objects in a trace. *)
Inductive unit_event :=
| Compiled (u : shader_var)
| Attached (p : program_var) (vert frag : shader_var)
| Linked (p : program_var)
| Released (u : shader_var).

Definition unit_event_of (e : event) : option unit_event :=
  match e with
  | NewShader u _ _ => Some (Compiled u)
  | NewProgram p v f => Some (Attached p v f)
  | Link p => Some (Linked p)
  | DeleteShader u => Some (Released u)
  | _ => None
  end.

Definition unit_events (evs : list event) : list unit_event :=
  omap unit_event_of evs.

(** A program references the two units it was created from. *)
Definition references (e : unit_event) (u : shader_var) : Prop :=
  match e with
  | Attached _ v f => u = v ∨ u = f
  | _ => False
  end.

(** The program a resolved handle belongs to. *)
Definition loc_program (loc : location) : program_var :=
  match loc with
  | UniformLoc p _ | AttributeLoc p _ => p
  end.

(** The uniform uploads of a trace, each with the program that is in use
    when it is made ([glUseProgram] state, [None] after [stopusing]). *)
Fixpoint seeding (active : option program_var) (evs : list event)
  : list (option program_var * event) :=
  match evs with
  | [] => []
  | e :: evs' =>
      match e with
      | Use p => seeding (Some p) evs'
      | StopUsing _ => seeding None evs'
      | Uniform1i _ _ | Uniform1f _ _ | Uniform4fv _ _ _ =>
          (active, e) :: seeding active evs'
      | _ => seeding active evs'
      end
  end.

(** The program whose uniform an upload writes. *)
Definition upload_target (e : event) : option program_var :=
  match e with
  | Uniform1i loc _ | Uniform1f loc _ | Uniform4fv loc _ _ => Some (loc_program loc)
  | _ => None
  end.

(** The activate/deactivate calls of a trace. *)
Definition brackets (evs : list event) : list event :=
  omap (λ e, match e with Use _ | StopUsing _ => Some e | _ => None end) evs.

(** The [glUniform4fv] calls of a trace. *)
Definition uploads4fv (evs : list event)
  : list (location * nat * list GLfloat_cell) :=
  omap (λ e, match e with
             | Uniform4fv loc n v => Some (loc, n, v)
             | _ => None
             end) evs.

(** [glUniform4fv(loc, count, value)] reads [count] vectors of four floats
    from [value]: the offsets [0 .. 4*count - 1]. *)
Definition Uniform4fv_reads (count : nat) : list nat := seq 0 (count * 4).

(** The entries of a texture array that a trace deletes. *)
Definition released (arr : texture_array) (evs : list event) : list Z :=
  omap (λ e, match e with
             | DeleteArrayEntry arr' i => if decide (arr = arr') then Some i else None
             | _ => None
             end) evs.

(* ===================================================================== *)
(** * The events of a complete run                                       *)
(* ===================================================================== *)

Definition load_events (ttype_count bmode_count : Z) : list event :=
  [ NewTexture gaben "gaben.png" None;
    NewTexture university "age/raw/Data/graphics.drs/3836.slp.png"
      (Some (true, PLAYERCOLORED));
    ReadCsvFile "age/processed/terrain_meta.docx";
    ReadCsvFile "age/processed/blending_meta.docx";
    NewTerrain 20 ttype_count bmode_count ].

Definition tile_events : list event :=
  map (λ pos, SetTile pos (terrain_data_at (ne pos) (se pos))) (grid_cells 20).

Definition palette_events (pcolor_count : nat) : list event :=
  [ ReadCsvFile "age/processed/player_color_palette.pal";
    NewFloatArray (pcolor_count * 4) ].

(** The shader part of [init], run on its own. *)
Definition shader_block (playercolors : list GLfloat_cell) : M unit :=
  init_shader_units ;;
  init_texture_shader ;;
  init_teamcolor_shader playercolors ;;
  init_alphamask_shader ;;
  init_delete_shaders.

Definition shader_events (playercolors : list GLfloat_cell) : list event :=
  trace (snd (shader_block playercolors (initial_state 0))).

Definition callback_events : list event :=
  [ PushBack on_input input_handler;
    PushBack on_engine_tick_list on_engine_tick;
    PushBack on_drawgame draw_method;
    PushBack on_drawhud hud_draw_method ].

Definition init_events (ttype_count bmode_count : Z)
    (player_color_file : list player_color_line) : list event :=
  load_events ttype_count bmode_count
  ++ tile_events
  ++ palette_events (length player_color_file)
  ++ shader_events (convert_playercolors player_color_file (length player_color_file))
  ++ callback_events.

(** The grid after every cell of [cells] has been set from [terrain_data]. *)
Definition set_tiles (cells : list tile) (m : gmap (Z * Z) Z) : gmap (Z * Z) Z :=
  foldl (λ m pos, <[tile_key pos := terrain_data_at (ne pos) (se pos)]> m) m cells.

Definition terrain_after_init (terrain_types : list TerrainType)
    (blending_modes : list BlendingMode) : Terrain :=
  let T := new_Terrain 20 (Z.of_nat (length terrain_types)) terrain_types
             (Z.of_nat (length blending_modes)) blending_modes in
  with_tiles (set_tiles (grid_cells 20) (tiles T)) T.

Definition destroy_events (n_terrain n_blend : Z) : list event :=
  [ DeleteTexture gaben; DeleteTexture university;
    DeleteProgram texture_shader; DeleteProgram teamcolor_shader;
    DeleteProgram alphamask_shader ]
  ++ map (DeleteArrayEntry terrain_textures) (seqZ 0 n_terrain)
  ++ map (DeleteArrayEntry blending_textures) (seqZ 0 n_blend)
  ++ [ DeleteTerrainPriorityList ].

(** [m] returns [x] and does nothing but make the calls [evs]. *)
Definition emits {A} (m : M A) (x : A) (evs : list event) : Prop :=
  ∀ st, m st = (inr x, st_emit evs st).

(** The loads of a world succeed. *)
Definition loads (w : World) (terrain_types : list TerrainType)
    (blending_modes : list BlendingMode)
    (player_color_file : list player_color_line) : Prop :=
  terrain_meta w = inr terrain_types
  ∧ blending_meta w = inr blending_modes
  ∧ read_csv_file (player_color_palette w) = inr player_color_file.

(** A channel value as the palette stores it. *)
Definition is_channel (c : Z) : Prop := 0 ≤ c ≤ 255.

(* ===================================================================== *)
(** * Sample files                                                       *)
(* ===================================================================== *)

(** Twenty-one terrain types with ids 0..20 and a few distinct priorities. *)
Definition sample_terrain_types : list TerrainType :=
  map (λ i, {| tt_id := i; tt_texture_ref := 15000 + i;
               blend_priority := (i * 7) mod 5 |}) (seqZ 0 21).

Definition sample_blending_modes (n : Z) : list BlendingMode :=
  map (λ i, {| bm_id := i; bm_texture_ref := 20000 + i |}) (seqZ 0 n).

Definition sample_palette : list string :=
  [ "0=0,0,82,255"; "1=0,21,130,255"; "2=19,49,161,255"; "3=48,93,182,255";
    "4=74,121,208,255"; "5=10,20,30,255"; "6=157,221,255,255";
    "7=215,255,255,255" ].

Definition sample_world (n_blend : Z) (palette : list string) : World :=
  {| terrain_meta := inr sample_terrain_types;
     blending_meta := inr (sample_blending_modes n_blend);
     player_color_palette := palette |}.

(** The palette entries that [sample_palette] loads to. *)
Definition sample_colors : list player_color_line :=
  [ {| idx := 0; r := 0; g := 0; b := 82; a := 255 |};
    {| idx := 1; r := 0; g := 21; b := 130; a := 255 |};
    {| idx := 2; r := 19; g := 49; b := 161; a := 255 |};
    {| idx := 3; r := 48; g := 93; b := 182; a := 255 |};
    {| idx := 4; r := 74; g := 121; b := 208; a := 255 |};
    {| idx := 5; r := 10; g := 20; b := 30; a := 255 |};
    {| idx := 6; r := 157; g := 221; b := 255; a := 255 |};
    {| idx := 7; r := 215; g := 255; b := 255; a := 255 |} ].

(* ===================================================================== *)
(** * Three sentences of the specification, as they are written           *)
(* ===================================================================== *)

(** Every loaded entry ends up, converted, at the slot its index names. *)
Definition placed_by_index : Prop :=
  ∀ (lines : list string) (pcs : list player_color_line) (e : player_color_line),
    read_csv_file lines = inr pcs →
    e ∈ pcs →
    is_channel (r e) → is_channel (g e) → is_channel (b e) → is_channel (a e) →
    slot (convert_playercolors pcs (length pcs)) (Z.to_nat (idx e))
    = Some (normalized e).

(** The loop over the blending textures is bounded by the number of
    blending modes that initialisation loaded. *)
Definition released_as_loaded : Prop :=
  ∀ (w : World) tts bms pcs (st st1 st2 : State),
    loads w tts bms pcs →
    run (init w) st = (inr tt, st1) →
    run destroy st1 = (inr tt, st2) →
    length (released blending_textures (events_of destroy st1)) = length bms.

(** A palette line whose index is 64 or more makes initialisation fail. *)
Definition index_checked : Prop :=
  ∀ (w : World) (st : State) (line : string) (e : player_color_line),
    line ∈ player_color_palette w →
    fill blank_line line = (0, e) →
    64 ≤ idx e →
    ∃ err, fst (run (init w) st) = inl err.

(* ===================================================================== *)
(** * [printf]'s [%u], [dump], and a palette line                        *)
(* ===================================================================== *)

Module Printf.

(** The character of a decimal digit. *)
Definition digit_char (d : Z) : ascii := ascii_of_nat (48 + Z.to_nat d).

(** The decimal digits of [n] in front of [acc], most significant first.
    [fuel] bounds their number. *)
Fixpoint digits (fuel : nat) (n : Z) (acc : string) : string :=
  match fuel with
  | O => acc
  | S fuel' =>
      let acc' := String (digit_char (n mod 10)) acc in
      if n <? 10 then acc' else digits fuel' (n / 10) acc'
  end.

(** ["%u"] of an [unsigned int]: no sign, no padding, at most ten digits. *)
Definition printf_u (n : Z) : string := digits 10 n "".

End Printf.

(** [player_color_line::dump]: the message handed to [engine::log::msg],
    ["color %u: (%u,%u,%u,%u)"]. *)
Definition dump (this : player_color_line) : string :=
  "color " +:+ Printf.printf_u (idx this) +:+ ": ("
  +:+ Printf.printf_u (r this) +:+ "," +:+ Printf.printf_u (g this) +:+ ","
  +:+ Printf.printf_u (b this) +:+ "," +:+ Printf.printf_u (a this) +:+ ")".

(** The line that ["%u=%u,%u,%u,%u"] writes for a record: what the palette
    file holds for it. *)
Definition palette_line (this : player_color_line) : string :=
  Printf.printf_u (idx this) +:+ "="
  +:+ Printf.printf_u (r this) +:+ "," +:+ Printf.printf_u (g this) +:+ ","
  +:+ Printf.printf_u (b this) +:+ "," +:+ Printf.printf_u (a this).

(** The values of an [unsigned int]. *)
Definition is_uint (z : Z) : Prop := 0 ≤ z < 2 ^ 32.

Definition uint_fields (this : player_color_line) : Prop :=
  is_uint (idx this) ∧ is_uint (r this) ∧ is_uint (g this)
  ∧ is_uint (b this) ∧ is_uint (a this).

(** The text that follows a number does not go on with a digit. *)
Definition no_digit_ahead (s : string) : Prop :=
  match s with
  | String c _ => Scanf.digit_of c = None
  | EmptyString => True
  end.

(** A text of white space only. *)
Fixpoint all_space (s : string) : bool :=
  match s with
  | EmptyString => true
  | String c s' => Scanf.is_space c && all_space s'
  end.

(** The number of [%u] directives of a format. *)
Fixpoint conv_count (fmt : list Scanf.directive) : nat :=
  match fmt with
  | [] => 0
  | Scanf.ConvU :: fmt' => S (conv_count fmt')
  | Scanf.Lit _ :: fmt' => conv_count fmt'
  end.

(** The same record under another index. *)
Definition with_idx (k : Z) (this : player_color_line) : player_color_line :=
  {| idx := k; r := r this; g := g this; b := b this; a := a this |}.

(** A terrain-type id that [set_tile] accepts. *)
Definition valid_id (T : Terrain) (pos : tile) : Prop :=
  0 ≤ terrain_data_at (ne pos) (se pos) < terrain_type_count T.

(* ===================================================================== *)
(** * Objects created with [new] and released with [delete]              *)
(* ===================================================================== *)

(** What a call creates or releases.  The loader's arrays and the source
    texts are named by their file. *)
Inductive resource :=
| RTexture (v : texture_var)
| RTable (path : string)
| RTerrain
| RFloatArray
| RSource (path : string)
| RShader (v : shader_var)
| RProgram (p : program_var)
| RArrayEntry (arr : texture_array) (i : Z)
| RPriorityList.

#[global] Instance resource_eq_dec : EqDecision resource.
Proof. solve_decision. Defined.

Definition creates (e : event) : option resource :=
  match e with
  | NewTexture v _ _ => Some (RTexture v)
  | ReadCsvFile path => Some (RTable path)
  | NewTerrain _ _ _ => Some RTerrain
  | NewFloatArray _ => Some RFloatArray
  | ReadWholeFile path => Some (RSource path)
  | NewShader v _ _ => Some (RShader v)
  | NewProgram p _ _ => Some (RProgram p)
  | _ => None
  end.

Definition deletes (e : event) : option resource :=
  match e with
  | DeleteTexture v => Some (RTexture v)
  | DeleteFloatArray => Some RFloatArray
  | DeleteSource path => Some (RSource path)
  | DeleteShader v => Some (RShader v)
  | DeleteProgram p => Some (RProgram p)
  | DeleteArrayEntry arr i => Some (RArrayEntry arr i)
  | DeleteTerrainPriorityList => Some RPriorityList
  | _ => None
  end.

(** [l] without the first occurrence of [x]. *)
Fixpoint remove_one (x : resource) (l : list resource) : list resource :=
  match l with
  | [] => []
  | y :: l' => if decide (x = y) then l' else y :: remove_one x l'
  end.

(** The objects that exist, newest first, and the deletions that found no
    such object (never created by the calls seen, or deleted before). *)
Record heap := {
  heap_live : list resource;
  heap_stray : list resource
}.

Definition heap_step (h : heap) (e : event) : heap :=
  match creates e, deletes e with
  | Some x, _ => {| heap_live := x :: heap_live h; heap_stray := heap_stray h |}
  | None, Some x =>
      if decide (x ∈ heap_live h)
      then {| heap_live := remove_one x (heap_live h); heap_stray := heap_stray h |}
      else {| heap_live := heap_live h; heap_stray := heap_stray h ++ [x] |}
  | None, None => h
  end.

Definition heap_run (h : heap) (evs : list event) : heap := foldl heap_step h evs.

Definition empty_heap : heap := {| heap_live := []; heap_stray := [] |}.

(* ===================================================================== *)
(** * The order that OpenGL asks of the calls                            *)
(* ===================================================================== *)

(** What the driver knows after some calls: the shader objects with their
    stage, the programs with the two shaders attached, the linked programs,
    the handles that were looked up, and the program in use. *)
Record gl_state := {
  gl_shaders : list (shader_var * shader_stage);
  gl_programs : list (program_var * (shader_var * shader_var));
  gl_linked : list program_var;
  gl_resolved : list location;
  gl_active : option program_var
}.

#[global] Instance shader_stage_eq_dec : EqDecision shader_stage.
Proof. solve_decision. Defined.
#[global] Instance location_eq_dec : EqDecision location.
Proof. solve_decision. Defined.

Definition gl_empty : gl_state :=
  {| gl_shaders := []; gl_programs := []; gl_linked := [];
     gl_resolved := []; gl_active := None |}.

(** The two shaders a program was made from. *)
Fixpoint attached (p : program_var)
    (l : list (program_var * (shader_var * shader_var)))
  : option (shader_var * shader_var) :=
  match l with
  | [] => None
  | (q, vf) :: l' => if decide (p = q) then Some vf else attached p l'
  end.

Definition is_uniform (loc : location) : bool :=
  match loc with UniformLoc _ _ => true | AttributeLoc _ _ => false end.

(** An upload needs a uniform handle that was looked up, of the program in
    use. *)
Definition upload_ok (s : gl_state) (loc : location) : bool :=
  is_uniform loc && bool_decide (loc ∈ gl_resolved s)
  && bool_decide (gl_active s = Some (loc_program loc)).

(** One call: the state after it, or [None] when the call is out of order:
    a shader object made twice, a program made from a shader that does not
    exist or of the wrong stage, a link of a program that does not exist or
    whose shaders are gone, a look-up in or a use of a program that is not
    linked, a use inside another use, an upload that is not [upload_ok], a
    shader deleted while a program made from it is not linked, a program
    deleted while in use or twice. *)
Definition gl_step (s : gl_state) (e : event) : option gl_state :=
  match e with
  | NewShader v stage _ =>
      if bool_decide (v ∈ (gl_shaders s).*1) then None
      else Some {| gl_shaders := (v, stage) :: gl_shaders s;
                   gl_programs := gl_programs s; gl_linked := gl_linked s;
                   gl_resolved := gl_resolved s; gl_active := gl_active s |}
  | NewProgram p vert frag =>
      if bool_decide ((vert, GL_VERTEX_SHADER) ∈ gl_shaders s)
         && bool_decide ((frag, GL_FRAGMENT_SHADER) ∈ gl_shaders s)
         && negb (bool_decide (p ∈ (gl_programs s).*1))
      then Some {| gl_shaders := gl_shaders s;
                   gl_programs := (p, (vert, frag)) :: gl_programs s;
                   gl_linked := gl_linked s;
                   gl_resolved := gl_resolved s; gl_active := gl_active s |}
      else None
  | Link p =>
      match attached p (gl_programs s) with
      | Some (vert, frag) =>
          if bool_decide (vert ∈ (gl_shaders s).*1)
             && bool_decide (frag ∈ (gl_shaders s).*1)
             && negb (bool_decide (p ∈ gl_linked s))
          then Some {| gl_shaders := gl_shaders s; gl_programs := gl_programs s;
                       gl_linked := p :: gl_linked s;
                       gl_resolved := gl_resolved s; gl_active := gl_active s |}
          else None
      | None => None
      end
  | GetUniformId p name =>
      if bool_decide (p ∈ gl_linked s)
      then Some {| gl_shaders := gl_shaders s; gl_programs := gl_programs s;
                   gl_linked := gl_linked s;
                   gl_resolved := UniformLoc p name :: gl_resolved s;
                   gl_active := gl_active s |}
      else None
  | GetAttributeId p name =>
      if bool_decide (p ∈ gl_linked s)
      then Some {| gl_shaders := gl_shaders s; gl_programs := gl_programs s;
                   gl_linked := gl_linked s;
                   gl_resolved := AttributeLoc p name :: gl_resolved s;
                   gl_active := gl_active s |}
      else None
  | Use p =>
      if bool_decide (p ∈ gl_linked s) && bool_decide (gl_active s = None)
      then Some {| gl_shaders := gl_shaders s; gl_programs := gl_programs s;
                   gl_linked := gl_linked s; gl_resolved := gl_resolved s;
                   gl_active := Some p |}
      else None
  | StopUsing p =>
      if bool_decide (gl_active s = Some p)
      then Some {| gl_shaders := gl_shaders s; gl_programs := gl_programs s;
                   gl_linked := gl_linked s; gl_resolved := gl_resolved s;
                   gl_active := None |}
      else None
  | Uniform1i loc _ | Uniform1f loc _ | Uniform4fv loc _ _ =>
      if upload_ok s loc then Some s else None
  | DeleteShader v =>
      if bool_decide (v ∈ (gl_shaders s).*1)
         && forallb (λ prog, bool_decide (prog.2.1 ≠ v ∧ prog.2.2 ≠ v)
                             || bool_decide (prog.1 ∈ gl_linked s))
                    (gl_programs s)
      then Some {| gl_shaders := filter (λ sh, sh.1 ≠ v) (gl_shaders s);
                   gl_programs := gl_programs s; gl_linked := gl_linked s;
                   gl_resolved := gl_resolved s; gl_active := gl_active s |}
      else None
  | DeleteProgram p =>
      if bool_decide (p ∈ (gl_programs s).*1)
         && negb (bool_decide (gl_active s = Some p))
      then Some {| gl_shaders := gl_shaders s;
                   gl_programs := filter (λ prog, prog.1 ≠ p) (gl_programs s);
                   gl_linked := filter (λ q, q ≠ p) (gl_linked s);
                   gl_resolved := filter (λ loc, loc_program loc ≠ p) (gl_resolved s);
                   gl_active := gl_active s |}
      else None
  | _ => Some s
  end.

Definition gl_run (s : gl_state) (evs : list event) : option gl_state :=
  foldl (λ os e, s ← os; gl_step s e) (Some s) evs.

(** A world whose terrain table has only the first eight terrain types. *)
Definition sample_world_few : World :=
  {| terrain_meta := inr (take 8 sample_terrain_types);
     blending_meta := inr (sample_blending_modes 9);
     player_color_palette := sample_palette |}.

(** A palette file of 64 lines, and the entries it loads to. *)
Definition full_colors : list player_color_line :=
  map (λ i, {| idx := i; r := (4 * i) mod 256; g := 255 - i; b := i; a := 255 |})
      (seqZ 0 64).

Definition full_palette : list string := map palette_line full_colors.

(* ===================================================================== *)
(** * Running the monad                                                  *)
(* ===================================================================== *)

Section Running.

Lemma bind_ok {A B} (m : M A) (f : A → M B) st x st' :
  m st = (inr x, st') → (m ≫= f) st = f x st'.
Proof. intros H. unfold mbind, M_bind. by rewrite H. Qed.

Lemma bind_err {A B} (m : M A) (f : A → M B) st e st' :
  m st = (inl e, st') → (m ≫= f) st = (inl e, st').
Proof. intros H. unfold mbind, M_bind. by rewrite H. Qed.

Lemma bind_ext {A B} (m : M A) (f g : A → M B) st :
  (∀ x st', f x st' = g x st') → (m ≫= f) st = (m ≫= g) st.
Proof.
  intros H. unfold mbind, M_bind.
  destruct (m st) as [[e|x] st']; [done | apply H].
Qed.

Lemma st_emit_emit a b st : st_emit b (st_emit a st) = st_emit (a ++ b) st.
Proof. unfold st_emit; simpl. by rewrite <- app_assoc. Qed.

Lemma st_emit_nil st : st_emit [] st = st.
Proof. destruct st. unfold st_emit; simpl. by rewrite app_nil_r. Qed.

Lemma emits_emit e : emits (emit e) tt [e].
Proof. by intros st. Qed.

Lemma emits_ret {A} (x : A) : emits (mret x) x [].
Proof. intros st. unfold mret, M_ret. by rewrite st_emit_nil. Qed.

Lemma emits_bind {A B} (m : M A) (f : A → M B) x y a b :
  emits m x a → emits (f x) y b → emits (m ≫= f) y (a ++ b).
Proof.
  intros Hm Hf st. rewrite (bind_ok _ _ _ _ _ (Hm st)), Hf.
  by rewrite st_emit_emit.
Qed.

Lemma emits_foreach {A} (f : A → event) (l : list A) :
  emits (foreach l (λ x, emit (f x))) tt (map f l).
Proof.
  induction l as [|x l IH]; simpl.
  - apply emits_ret.
  - apply (emits_bind _ _ tt tt [f x] (map f l)); [apply emits_emit | apply IH].
Qed.

Lemma foreach_ext {A} (f g : A → M unit) (l : list A) :
  (∀ x st, f x st = g x st) → ∀ st, foreach l f st = foreach l g st.
Proof.
  intros Hfg. induction l as [|x l IH]; intros st; simpl; [done|].
  unfold mbind, M_bind. rewrite Hfg.
  destruct (g x st) as [[e|[]] st']; [done | apply IH].
Qed.

Lemma foreach_app {A} (f : A → M unit) (l1 l2 : list A) st :
  foreach (l1 ++ l2) f st = (foreach l1 f ;; foreach l2 f) st.
Proof.
  revert st. induction l1 as [|x l1 IH]; intros st; simpl; [done|].
  unfold mbind, M_bind in *.
  destruct (f x st) as [[e|[]] st']; [done | apply IH].
Qed.

Lemma foreach_singletons {A B} (g : A → B) (f : B → M unit) (l : list A) st :
  foreach (x ← l; [g x]) f st = foreach l (λ x, f (g x)) st.
Proof.
  revert st. induction l as [|x l IH]; intros st; simpl; [done|].
  apply bind_ext. intros _ st'. apply IH.
Qed.

Lemma foreach_nested {A B} (l : list A) (k : A → list B) (f : B → M unit) st :
  foreach (x ← l; k x) f st = foreach l (λ x, foreach (k x) f) st.
Proof.
  revert st. induction l as [|x l IH]; intros st; simpl; [done|].
  rewrite foreach_app. apply bind_ext. intros _ st'. apply IH.
Qed.

End Running.

(* ===================================================================== *)
(** * The blocks of [init], one by one                                   *)
(* ===================================================================== *)

Section Blocks.

Lemma init_load_run w tts bms st :
  terrain_meta w = inr tts → blending_meta w = inr bms →
  init_load w st
  = (inr tt,
     st_terrain
       (new_Terrain 20 (Z.of_nat (length tts)) tts (Z.of_nat (length bms)) bms)
       (st_emit (load_events (Z.of_nat (length tts)) (Z.of_nat (length bms))) st)).
Proof.
  intros Ht Hb. unfold init_load, lift_result, mbind, M_bind, emit, put_terrain.
  rewrite Ht, Hb. simpl. rewrite !st_emit_emit. reflexivity.
Qed.

(** A failing load of the terrain table stops [init] before the grid exists. *)
Lemma init_load_terrain_meta_fails w e st :
  terrain_meta w = inl e → fst (init_load w st) = inl e.
Proof.
  intros Ht. unfold init_load, lift_result, mbind, M_bind, emit.
  by rewrite Ht.
Qed.

Lemma set_tile_valid T pos id :
  0 ≤ id < terrain_type_count T →
  set_tile T pos id = inr (with_tiles (<[tile_key pos := id]> (tiles T)) T).
Proof.
  intros [H0 H1]. unfold set_tile.
  apply Z.leb_le in H0. apply Z.ltb_lt in H1. by rewrite H0, H1.
Qed.

Lemma Terrain_set_tile_valid T pos id st :
  terrain st = Some T → 0 ≤ id < terrain_type_count T →
  Terrain_set_tile pos id st
  = (inr tt, st_terrain (with_tiles (<[tile_key pos := id]> (tiles T)) T)
               (st_emit [SetTile pos id] st)).
Proof.
  intros HT Hid.
  unfold Terrain_set_tile, get_terrain, lift_result, put_terrain, mbind, M_bind, emit.
  simpl. rewrite HT, (set_tile_valid _ _ _ Hid). reflexivity.
Qed.

Lemma set_tiles_run (cells : list tile) : ∀ T st,
  terrain st = Some T →
  Forall (λ pos, 0 ≤ terrain_data_at (ne pos) (se pos) < terrain_type_count T) cells →
  foreach cells (λ pos, Terrain_set_tile pos (terrain_data_at (ne pos) (se pos))) st
  = (inr tt,
     st_terrain (with_tiles (set_tiles cells (tiles T)) T)
       (st_emit (map (λ pos, SetTile pos (terrain_data_at (ne pos) (se pos))) cells) st)).
Proof.
  induction cells as [|pos cells IH]; intros T st HT Hall; simpl.
  - unfold mret, M_ret. rewrite st_emit_nil. destruct st, T; simpl in *. by subst.
  - inversion Hall as [|? ? Hpos Hrest]; subst.
    rewrite (bind_ok _ _ _ _ _ (Terrain_set_tile_valid T pos _ st HT Hpos)).
    rewrite (IH (with_tiles (<[tile_key pos := terrain_data_at (ne pos) (se pos)]> (tiles T)) T));
      [| done | done].
    simpl. f_equal. unfold st_terrain, st_emit, with_tiles; simpl.
    by rewrite <- app_assoc.
Qed.

Lemma terrain_data_range :
  Forall (λ pos, 0 ≤ terrain_data_at (ne pos) (se pos) ≤ 20) (grid_cells 20).
Proof.
  apply Forall_forall. intros pos Hin.
  assert (Hb : forallb (λ pos, (0 <=? terrain_data_at (ne pos) (se pos))
                               && (terrain_data_at (ne pos) (se pos) <=? 20))
                 (grid_cells 20) = true) by (vm_compute; reflexivity).
  rewrite forallb_forall in Hb. apply list_elem_of_In in Hin.
  specialize (Hb pos Hin). apply andb_true_iff in Hb as [H0 H1].
  split; [by apply Z.leb_le | by apply Z.leb_le].
Qed.

Lemma init_tiles_run T st :
  terrain st = Some T → terrain_size T = 20 → 20 < terrain_type_count T →
  init_tiles st
  = (inr tt, st_terrain (with_tiles (set_tiles (grid_cells 20) (tiles T)) T)
               (st_emit tile_events st)).
Proof.
  intros HT Hsz Hcount. unfold init_tiles, Terrain_get_size, get_terrain.
  unfold mbind at 1 2, M_bind. rewrite HT. unfold mret, M_ret, get_size. rewrite Hsz.
  unfold for_upto, tile_events.
  rewrite <- (set_tiles_run (grid_cells 20) T st HT).
  - unfold grid_cells. rewrite foreach_nested. apply foreach_ext.
    intros i st'. by rewrite foreach_singletons.
  - eapply Forall_impl; [apply terrain_data_range|]. simpl. lia.
Qed.

Lemma init_player_colors_run w pcs st :
  read_csv_file (player_color_palette w) = inr pcs →
  init_player_colors w st
  = (inr (convert_playercolors pcs (length pcs)),
     st_emit (palette_events (length pcs)) st).
Proof.
  intros Hp. unfold init_player_colors, lift_result, mbind, M_bind, emit.
  rewrite Hp. unfold mret, M_ret. by rewrite st_emit_emit.
Qed.

Lemma emits_load_shader v stage path :
  emits (load_shader v stage path) tt
        [ReadWholeFile path; NewShader v stage path; DeleteSource path].
Proof. intros st. unfold load_shader, mbind, M_bind, emit. by rewrite !st_emit_emit. Qed.

Lemma emits_shader_block playercolors :
  emits (shader_block playercolors) tt (shader_events playercolors).
Proof.
  assert (H : ∃ evs, emits (shader_block playercolors) tt evs).
  { eexists. unfold shader_block, init_shader_units, init_texture_shader,
      init_teamcolor_shader, init_alphamask_shader, init_delete_shaders,
      load_shader, get_uniform_id, get_attribute_id.
    repeat first [ eapply emits_bind | apply emits_emit | apply emits_ret ]. }
  destruct H as [evs H]. unfold shader_events. by rewrite (H (initial_state 0)).
Qed.

Lemma emits_init_callbacks : emits init_callbacks tt callback_events.
Proof. intros st. unfold init_callbacks, mbind, M_bind, emit. by rewrite !st_emit_emit. Qed.

Lemma emits_destroy_loop arr n :
  emits (for_upto n (λ i, emit (DeleteArrayEntry arr i))) tt
        (map (DeleteArrayEntry arr) (seqZ 0 n)).
Proof. apply emits_foreach. Qed.

End Blocks.

(* ===================================================================== *)
(** * Complete runs of [init] and [destroy]                              *)
(* ===================================================================== *)

Section Runs.

Lemma init_run w tts bms pcs st :
  loads w tts bms pcs → (20 < length tts)%nat →
  run (init w) st
  = (inr tt,
     st_terrain (terrain_after_init tts bms)
       (st_emit (init_events (Z.of_nat (length tts)) (Z.of_nat (length bms)) pcs) st)).
Proof.
  intros (Ht & Hb & Hp) Hcount. unfold run, init.
  rewrite (bind_ok _ _ _ _ _ (init_load_run w tts bms st Ht Hb)).
  erewrite bind_ok; last first.
  { apply init_tiles_run with (T := new_Terrain 20 (Z.of_nat (length tts)) tts
                                      (Z.of_nat (length bms)) bms);
      [reflexivity | reflexivity | cbn [terrain_type_count new_Terrain]; lia]. }
  erewrite bind_ok; last by apply init_player_colors_run.
  pose proof (emits_shader_block (convert_playercolors pcs (length pcs))) as Hs.
  unfold shader_block in Hs.
  set (st3 := st_emit (palette_events (length pcs)) _).
  specialize (Hs st3).
  unfold mbind, M_bind in Hs |- *.
  destruct (init_shader_units st3) as [[e|[]] s1]; [discriminate Hs|].
  destruct (init_texture_shader s1) as [[e|[]] s2]; [discriminate Hs|].
  destruct (init_teamcolor_shader _ s2) as [[e|[]] s3]; [discriminate Hs|].
  destruct (init_alphamask_shader s3) as [[e|[]] s4]; [discriminate Hs|].
  rewrite Hs. rewrite emits_init_callbacks. f_equal.
  unfold st3, init_events, st_terrain, st_emit, terrain_after_init.
  cbn [trace terrain blend_mode_count terrain_texture_count].
  f_equal. by rewrite <- !app_assoc.
Qed.

Lemma destroy_run st :
  run destroy st
  = (inr tt, st_emit (destroy_events (terrain_texture_count st) (blend_mode_count st)) st).
Proof.
  unfold run, destroy, gets. unfold mbind, M_bind, emit.
  rewrite !st_emit_emit.
  cbn [app terrain_texture_count blend_mode_count st_emit].
  rewrite (emits_destroy_loop terrain_textures), st_emit_emit.
  cbn [app terrain_texture_count blend_mode_count st_emit].
  rewrite (emits_destroy_loop blending_textures), !st_emit_emit.
  reflexivity.
Qed.

Lemma events_of_emit {A} (m : M A) (x : Result A) evs st st' :
  m st = (x, st') → trace st' = trace st ++ evs → events_of m st = evs.
Proof.
  intros Hm Htr. unfold events_of. rewrite Hm; simpl.
  by rewrite Htr, drop_app_length.
Qed.

Lemma init_events_of w tts bms pcs st :
  loads w tts bms pcs → (20 < length tts)%nat →
  events_of (init w) st
  = init_events (Z.of_nat (length tts)) (Z.of_nat (length bms)) pcs.
Proof.
  intros Hl Hc. eapply events_of_emit; [apply (init_run _ _ _ _ _ Hl Hc) | done].
Qed.

Lemma destroy_events_of st :
  events_of destroy st
  = destroy_events (terrain_texture_count st) (blend_mode_count st).
Proof. eapply events_of_emit; [apply destroy_run | done]. Qed.

End Runs.

(* ===================================================================== *)
(** * Tactics                                                        *)
(* ===================================================================== *)

(** Rewrites the events of a complete run of [init] into the five blocks,
    with every quantity that comes from the loaded files generalised, so
    that what is left can be computed. *)
Ltac concrete_init_events Hl Hc :=
  rewrite (init_events_of _ _ _ _ _ Hl Hc); unfold init_events, palette_events;
  repeat match goal with
  | |- context [convert_playercolors ?p ?n] => generalize (convert_playercolors p n)
  | |- context [(length ?p * 4)%nat] => generalize (length p * 4)%nat
  | |- context [Z.of_nat (length ?l)] => generalize (Z.of_nat (length l))
  end.

Ltac in_cases H :=
  repeat (apply elem_of_cons in H as [H|H]); [ .. | by apply elem_of_nil in H ].

Ltac in_list :=
  repeat first [ by apply elem_of_cons; left | apply elem_of_cons; right ].

(* ===================================================================== *)
(** * The player-colour table                                        *)
(* ===================================================================== *)

Section PlayerColors.

Lemma length_store_color pcs buf i :
  length (store_color pcs buf i) = length buf.
Proof.
  unfold store_color. destruct (pcs !! i); [|done].
  by rewrite !length_insert.
Qed.

Lemma length_foldl_store_color pcs ixs buf :
  length (foldl (store_color pcs) buf ixs) = length buf.
Proof.
  revert buf. induction ixs as [|i ixs IH]; intros buf; simpl; [done|].
  by rewrite IH, length_store_color.
Qed.

Lemma length_convert_playercolors pcs n :
  length (convert_playercolors pcs n) = (n * 4)%nat.
Proof.
  unfold convert_playercolors.
  by rewrite length_foldl_store_color, length_replicate.
Qed.

Lemma alpha_marker_value :
  alpha_marker = S754_finite false 16711423 (-24).
Proof. vm_compute. reflexivity. Qed.

Lemma channel_checks :
  forallb (λ cx : Z * spec_float,
             GL.is_finite cx.2
             && negb (GL.fltb cx.2 cx.2)
             && Qle_bool (Qabs (GL.to_Q cx.2 - (cx.1 # 255))) (1 # 33554432)
             && Qle_bool 0 (GL.to_Q cx.2) && Qle_bool (GL.to_Q cx.2) 1)
          (map (λ c, (c, channel c)) (seqZ 0 256)) = true.
Proof. vm_compute. reflexivity. Qed.

Lemma channel_pairs :
  (λ t : list (Z * spec_float),
     forallb (λ x, forallb (λ y, if x.1 <? y.1 then GL.fltb x.2 y.2 else true) t) t)
    (map (λ c, (c, channel c)) (seqZ 0 256)) = true.
Proof. vm_compute. reflexivity. Qed.

Lemma In_channel_table c :
  is_channel c → In (c, channel c) (map (λ c, (c, channel c)) (seqZ 0 256)).
Proof.
  intros Hc. apply (in_map (λ c, (c, channel c))), list_elem_of_In, elem_of_seqZ.
  unfold is_channel in Hc. lia.
Qed.

Lemma channel_facts c :
  is_channel c →
  approximates (channel c) (c # 255)
  ∧ GL.fltb (channel c) (channel c) = false
  ∧ (0 <= GL.to_Q (channel c) <= 1)%Q.
Proof.
  intros Hc. pose proof channel_checks as H. rewrite forallb_forall in H.
  specialize (H _ (In_channel_table c Hc)). cbn [fst snd] in H.
  generalize dependent (channel c). intros x H.
  repeat (apply andb_true_iff in H as [H ?]).
  unfold approximates. repeat split; try by apply Qle_bool_iff.
  - done.
  - by apply negb_true_iff.
Qed.

Lemma channel_increasing c1 c2 :
  is_channel c1 → is_channel c2 → c1 < c2 →
  GL.fltb (channel c1) (channel c2) = true.
Proof.
  intros H1 H2 Hlt. pose proof channel_pairs as H. cbv beta in H.
  rewrite forallb_forall in H. specialize (H _ (In_channel_table c1 H1)).
  rewrite forallb_forall in H. specialize (H _ (In_channel_table c2 H2)).
  cbn [fst snd] in H. apply Z.ltb_lt in Hlt. by rewrite Hlt in H.
Qed.

Lemma channel_injective c1 c2 :
  is_channel c1 → is_channel c2 → channel c1 = channel c2 → c1 = c2.
Proof.
  intros H1 H2 Heq.
  destruct (Z.lt_trichotomy c1 c2) as [Hlt|[->|Hgt]]; [exfalso | done | exfalso].
  - pose proof (channel_increasing c1 c2 H1 H2 Hlt) as H. rewrite Heq in H.
    destruct (channel_facts c2 H2) as (_ & Hirr & _). congruence.
  - pose proof (channel_increasing c2 c1 H2 H1 Hgt) as H. rewrite Heq in H.
    destruct (channel_facts c2 H2) as (_ & Hirr & _). congruence.
Qed.

Lemma store_color_other pcs buf i k :
  (k < i * 4 ∨ i * 4 + 4 ≤ k)%nat → store_color pcs buf i !! k = buf !! k.
Proof.
  intros Hk. unfold store_color. destruct (pcs !! i); [|done].
  rewrite !list_lookup_insert_ne; [done | lia..].
Qed.

Lemma store_color_here pcs buf i e :
  pcs !! i = Some e → (i * 4 + 3 < length buf)%nat →
  holds_at (store_color pcs buf i) i e.
Proof.
  intros He Hlen. unfold holds_at, store_color. rewrite He.
  repeat split.
  - rewrite !list_lookup_insert_ne by lia. apply list_lookup_insert_eq. lia.
  - rewrite !list_lookup_insert_ne by lia.
    apply list_lookup_insert_eq. rewrite length_insert. lia.
  - rewrite !list_lookup_insert_ne by lia.
    apply list_lookup_insert_eq. rewrite !length_insert. lia.
  - apply list_lookup_insert_eq. rewrite !length_insert. lia.
Qed.

Lemma foldl_store_color_holds pcs buf k :
  (k * 4 ≤ length buf)%nat →
  ∀ i e, (i < k)%nat → pcs !! i = Some e →
         holds_at (foldl (store_color pcs) buf (seq 0 k)) i e.
Proof.
  induction k as [|k IH]; intros Hlen i e Hi He; [lia|].
  rewrite seq_S, foldl_app. simpl.
  destruct (decide (i = k)) as [->|Hne].
  - apply store_color_here; [done|]. rewrite length_foldl_store_color. lia.
  - destruct (IH ltac:(lia) i e ltac:(lia) He) as (H0 & H1 & H2 & H3).
    unfold holds_at. rewrite !store_color_other by lia. done.
Qed.

Lemma convert_playercolors_holds pcs i e :
  pcs !! i = Some e → holds_at (convert_playercolors pcs (length pcs)) i e.
Proof.
  intros He. unfold convert_playercolors. apply foldl_store_color_holds.
  - by rewrite length_replicate.
  - by eapply lookup_lt_Some.
  - done.
Qed.

Lemma slot_of_holds table i e : holds_at table i e → slot table i = Some (normalized e).
Proof. intros (H0 & H1 & H2 & H3). unfold slot. by rewrite H0, H1, H2, H3. Qed.

Lemma slot_convert_playercolors pcs i e :
  pcs !! i = Some e →
  slot (convert_playercolors pcs (length pcs)) i = Some (normalized e).
Proof. intros He. by apply slot_of_holds, convert_playercolors_holds. Qed.

(** Every float of the array is one that the loop has written. *)
Lemma convert_playercolors_cell pcs k :
  (k < length pcs * 4)%nat →
  ∃ x, convert_playercolors pcs (length pcs) !! k = Some (Some x).
Proof.
  intros Hlt.
  assert (Hi : (k `div` 4 < length pcs)%nat) by (apply Nat.Div0.div_lt_upper_bound; lia).
  destruct (lookup_lt_is_Some_2 pcs (k `div` 4) Hi) as [e He].
  destruct (convert_playercolors_holds pcs _ e He) as (H0 & H1 & H2 & H3).
  pose proof (Nat.div_mod_eq k 4) as Hdm.
  pose proof (Nat.mod_upper_bound k 4 ltac:(lia)) as Hm.
  assert (Hcase : k = (k `div` 4 * 4)%nat ∨ k = (k `div` 4 * 4 + 1)%nat
                  ∨ k = (k `div` 4 * 4 + 2)%nat ∨ k = (k `div` 4 * 4 + 3)%nat) by lia.
  destruct Hcase as [Hk|[Hk|[Hk|Hk]]]; rewrite Hk; eauto.
Qed.

Lemma read_csv_file_lookup `{csv_line_data T} (before : list string) line after
    (recs : list T) :
  read_csv_file (before ++ line :: after) = inr recs →
  recs !! length before = Some (csv_fill csv_new line).2.
Proof.
  revert recs. induction before as [|l before IH]; intros recs; simpl.
  - destruct (csv_fill csv_new line) as [rc rec]. destruct (rc =? 0); [|done].
    destruct (read_csv_file after); [done|].
    intros Heq. injection Heq as <-. done.
  - destruct (csv_fill csv_new l) as [rc rec]. destruct (rc =? 0); [|done].
    destruct (read_csv_file (before ++ line :: after)) as [|recs']; [done|].
    intros Heq. injection Heq as <-. simpl. by apply IH.
Qed.

End PlayerColors.

(* ===================================================================== *)
(** * The texture arrays that teardown walks                         *)
(* ===================================================================== *)

Section Released.

Lemma released_app arr l1 l2 :
  released arr (l1 ++ l2) = released arr l1 ++ released arr l2.
Proof. apply omap_app. Qed.

Lemma released_entries arr arr' l :
  released arr (map (DeleteArrayEntry arr') l) = if decide (arr = arr') then l else [].
Proof.
  induction l as [|i l IH].
  - by destruct (decide _).
  - change (map (DeleteArrayEntry arr') (i :: l))
      with ([DeleteArrayEntry arr' i] ++ map (DeleteArrayEntry arr') l).
    rewrite released_app, IH. unfold released; simpl.
    by destruct (decide (arr = arr')).
Qed.

Lemma released_destroy_events arr n_terrain n_blend :
  released arr (destroy_events n_terrain n_blend)
  = match arr with
    | terrain_textures => seqZ 0 n_terrain
    | blending_textures => seqZ 0 n_blend
    end.
Proof.
  unfold destroy_events. rewrite !released_app, !released_entries.
  destruct arr; simpl; by rewrite ?app_nil_r.
Qed.

End Released.

(* ===================================================================== *)
(** * The terrain grid                                               *)
(* ===================================================================== *)

Section Grid.

Lemma elem_of_grid_cells i j :
  0 ≤ i < 20 → 0 ≤ j < 20 → {| ne := i; se := j |} ∈ grid_cells 20.
Proof.
  intros Hi Hj. unfold grid_cells. apply list_elem_of_bind. exists i. split.
  - apply list_elem_of_bind. exists j. split; [apply list_elem_of_singleton; reflexivity|].
    apply elem_of_seqZ. lia.
  - apply elem_of_seqZ. lia.
Qed.

Lemma set_tile_calls_tile_events :
  set_tile_calls tile_events
  = map (λ pos, (pos, terrain_data_at (ne pos) (se pos))) (grid_cells 20).
Proof. vm_compute. reflexivity. Qed.

Lemma row_major (i j : nat) :
  (i < 20)%nat → (j < 20)%nat →
  map (λ pos, (pos, terrain_data_at (ne pos) (se pos))) (grid_cells 20) !! (i * 20 + j)%nat
  = Some ({| ne := Z.of_nat i; se := Z.of_nat j |},
          terrain_data_at (Z.of_nat i) (Z.of_nat j)).
Proof.
  intros Hi Hj.
  set (calls := map (λ pos, (pos, terrain_data_at (ne pos) (se pos))) (grid_cells 20)).
  assert (Hb : forallb (λ i, forallb (λ j,
             match calls !! (i * 20 + j)%nat with
             | Some (pos, id) =>
                 (ne pos =? Z.of_nat i) && (se pos =? Z.of_nat j)
                 && (id =? terrain_data_at (Z.of_nat i) (Z.of_nat j))
             | None => false
             end) (seq 0 20)) (seq 0 20) = true) by (vm_compute; reflexivity).
  rewrite forallb_forall in Hb.
  specialize (Hb i ltac:(apply in_seq; lia)).
  rewrite forallb_forall in Hb.
  specialize (Hb j ltac:(apply in_seq; lia)).
  clearbody calls.
  destruct (calls !! (i * 20 + j)%nat) as [[[pi pj] id]|]; [|discriminate Hb].
  cbn [ne se] in Hb. apply andb_true_iff in Hb as [Hb Hid].
  apply andb_true_iff in Hb as [Hne Hse].
  apply Z.eqb_eq in Hne, Hse, Hid. by subst.
Qed.

Lemma tiles_after_sweep i j :
  0 ≤ i < 20 → 0 ≤ j < 20 →
  set_tiles (grid_cells 20) ∅ !! (i, j) = Some (terrain_data_at i j)
  ∧ 0 ≤ terrain_data_at i j ≤ 20
  ∧ terrain_data_at i j ∈ [3; 7; 9; 11; 12; 13; 14; 17; 18; 19; 20].
Proof.
  intros Hi Hj.
  assert (Hb : forallb (λ pos,
             match set_tiles (grid_cells 20) ∅ !! tile_key pos with
             | Some id =>
                 (id =? terrain_data_at (ne pos) (se pos))
                 && (0 <=? id) && (id <=? 20)
                 && existsb (Z.eqb id) [3; 7; 9; 11; 12; 13; 14; 17; 18; 19; 20]
             | None => false
             end) (grid_cells 20) = true) by (vm_compute; reflexivity).
  rewrite forallb_forall in Hb.
  specialize (Hb {| ne := i; se := j |}
                 ltac:(apply list_elem_of_In, elem_of_grid_cells; lia)).
  revert Hb. unfold tile_key. cbn [ne se].
  generalize (set_tiles (grid_cells 20) ∅). intros m Hb.
  destruct (m !! (i, j)) as [id|]; [|discriminate Hb].
  apply andb_true_iff in Hb as [Hb Hin]. apply andb_true_iff in Hb as [Hb Hhi].
  apply andb_true_iff in Hb as [Heq Hlo].
  apply Z.eqb_eq in Heq. apply Z.leb_le in Hlo, Hhi. subst id.
  split; [reflexivity|]. split; [lia|].
  apply existsb_exists in Hin as (x & Hx & Hxe). apply Z.eqb_eq in Hxe. subst x.
  by apply list_elem_of_In.
Qed.

(** C6: [set_tile] with an id outside [[0, terrain_type_count)] fails with
    [InvalidTerrainId], and the call leaves the terrain, and so every cell
    of its grid, as it was. *)
Theorem set_tile_rejects_invalid_id (T : Terrain) (pos : tile) (id : Z) (st : State) :
  ¬ (0 ≤ id < terrain_type_count T) →
  terrain st = Some T →
  set_tile T pos id = inl InvalidTerrainId
  ∧ fst (run (Terrain_set_tile pos id) st) = inl InvalidTerrainId
  ∧ terrain (snd (run (Terrain_set_tile pos id) st)) = Some T
  ∧ ∀ cell, (T' ← terrain (snd (run (Terrain_set_tile pos id) st)); tiles T' !! cell)
            = tiles T !! cell.
Proof.
  intros Hid HT.
  assert (Hset : set_tile T pos id = inl InvalidTerrainId).
  { unfold set_tile. destruct (0 <=? id) eqn:H0; [|done].
    destruct (id <? terrain_type_count T) eqn:H1; [|done].
    apply Z.leb_le in H0. apply Z.ltb_lt in H1. lia. }
  split; [exact Hset|].
  unfold run, Terrain_set_tile, get_terrain, lift_result, put_terrain, emit.
  unfold mbind, M_bind. cbn [terrain st_emit]. rewrite HT, Hset.
  cbn [fst snd terrain st_emit]. rewrite HT. by repeat split.
Qed.

End Grid.

(* ===================================================================== *)
(** * The blend priority ordering                                        *)
(* ===================================================================== *)

Section Priority.

Lemma priority_insert_perm t l : priority_insert t l ≡ₚ t :: l.
Proof.
  induction l as [|u l IH]; simpl; [done|].
  destruct (blend_priority t <? blend_priority u); [|done].
  rewrite IH. apply Permutation_swap.
Qed.

Lemma priority_sort_perm l : priority_sort l ≡ₚ l.
Proof.
  induction l as [|t l IH]; simpl; [done|].
  fold (priority_sort l). rewrite priority_insert_perm. by rewrite IH.
Qed.

Lemma priority_insert_sorted t l :
  StronglySorted before l → StronglySorted before (priority_insert t l).
Proof.
  induction 1 as [|u l Hl IH Hu]; simpl.
  - repeat constructor.
  - destruct (blend_priority t <? blend_priority u) eqn:E.
    + apply Z.ltb_lt in E. constructor; [exact IH|].
      rewrite priority_insert_perm. constructor; [unfold before; lia | exact Hu].
    + apply Z.ltb_ge in E. constructor; [by constructor|].
      constructor; [exact E|].
      eapply Forall_impl; [exact Hu|]. unfold before. simpl. lia.
Qed.

Lemma priority_sort_sorted l : StronglySorted before (priority_sort l).
Proof.
  induction l as [|t l IH]; simpl; [constructor|].
  by apply priority_insert_sorted.
Qed.

Lemma sorted_lookup (l : list TerrainType) :
  StronglySorted before l →
  ∀ i j x y, l !! i = Some x → l !! j = Some y → (i < j)%nat → before x y.
Proof.
  induction 1 as [|u l Hl IH Hu]; intros i j x y Hi Hj Hlt.
  - by rewrite lookup_nil in Hi.
  - destruct j as [|j]; [lia|]. simpl in Hj. destruct i as [|i].
    + simpl in Hi. injection Hi as ->.
      rewrite Forall_forall in Hu. apply Hu. by eapply list_elem_of_lookup_2.
    + simpl in Hi. apply (IH i j); [done | done | lia].
Qed.

Lemma priority_insert_stable p t l :
  filter (λ u, blend_priority u = p) (priority_insert t l)
  = filter (λ u, blend_priority u = p) (t :: l).
Proof.
  induction l as [|u l IH]; simpl; [done|].
  destruct (blend_priority t <? blend_priority u) eqn:E; [|done].
  apply Z.ltb_lt in E. rewrite filter_cons, IH, !filter_cons.
  destruct (decide (blend_priority u = p)), (decide (blend_priority t = p));
    try reflexivity; lia.
Qed.

Lemma priority_sort_stable p l :
  filter (λ u, blend_priority u = p) (priority_sort l)
  = filter (λ u, blend_priority u = p) l.
Proof.
  induction l as [|t l IH]; simpl; [done|].
  fold (priority_sort l). rewrite priority_insert_stable, !filter_cons.
  by rewrite IH.
Qed.

(** C2: the terrain build at the start of [init] produces the priority
    ordering: the ids of the loaded terrain types, each as often as it was
    loaded (exactly once when the loaded ids are distinct), a type of
    strictly greater [blend_priority] before any of smaller priority, types
    of equal priority in the order of the table; no terrain types give the
    empty ordering, and the build does not fail. *)
Theorem priority_ordering_stable_descending w tts bms st :
  terrain_meta w = inr tts → blending_meta w = inr bms →
  ∃ st' T,
    run (init_load w) st = (inr tt, st') ∧ terrain st' = Some T
    ∧ priority_ordering T = map tt_id (priority_sort tts)
    ∧ priority_ordering T ≡ₚ map tt_id tts
    ∧ (NoDup (map tt_id tts) →
       NoDup (priority_ordering T)
       ∧ ∀ id, id ∈ priority_ordering T ↔ id ∈ map tt_id tts)
    ∧ (∀ i j x y, priority_sort tts !! i = Some x → priority_sort tts !! j = Some y →
                  blend_priority y < blend_priority x → (i < j)%nat)
    ∧ (∀ p, filter (λ t, blend_priority t = p) (priority_sort tts)
            = filter (λ t, blend_priority t = p) tts)
    ∧ (tts = [] → priority_ordering T = []).
Proof.
  intros Ht Hb. eexists _, _.
  split; [apply (init_load_run _ _ _ _ Ht Hb)|].
  split; [reflexivity|]. cbn [priority_ordering new_Terrain].
  unfold blend_priority_order.
  assert (Hperm : map tt_id (priority_sort tts) ≡ₚ map tt_id tts)
    by (apply Permutation_map, priority_sort_perm).
  split; [reflexivity|]. split; [exact Hperm|]. split.
  { intros Hnd. split; [by rewrite Hperm|]. intros id. by rewrite Hperm. }
  split.
  { intros i j x y Hi Hj Hlt.
    destruct (decide (i < j)%nat) as [|Hge]; [done|]. exfalso.
    destruct (decide (i = j)) as [->|Hne].
    - rewrite Hi in Hj. injection Hj as ->. lia.
    - pose proof (sorted_lookup _ (priority_sort_sorted tts) j i y x Hj Hi
                    ltac:(lia)) as H.
      unfold before in H. lia. }
  split; [intros p; apply priority_sort_stable|].
  by intros ->.
Qed.

End Priority.

(* ===================================================================== *)
(** * A complete run of [init]                                       *)
(* ===================================================================== *)

Section CompleteRun.

(** The files load, and the terrain table has more than twenty types, so
    that every id of [terrain_data] (the largest is 20) is in the table. *)
Context (w : World) (tts : list TerrainType) (bms : list BlendingMode)
        (pcs : list player_color_line) (st : State).
Hypothesis Hl : loads w tts bms pcs.
Hypothesis Hc : (20 < length tts)%nat.

(** C3: a complete run of [init] makes its calls phase by phase: the two
    standalone textures, the two terrain metadata tables, the terrain grid
    (the constructor and the 400 tiles), the player-colour table, shader
    assembly, and last the four callbacks, registered in the order input,
    tick, scene draw, HUD draw. *)
Theorem init_phases_in_order :
  fst (run (init w) st) = inr tt
  ∧ ∃ before,
      events_of (init w) st
      = before ++ [ PushBack on_input input_handler;
                    PushBack on_engine_tick_list on_engine_tick;
                    PushBack on_drawgame draw_method;
                    PushBack on_drawhud hud_draw_method ]
      ∧ map phase_of before
        = replicate 2 StandaloneTextures ++ replicate 2 TerrainMetadata
          ++ replicate 401 TerrainGrid ++ replicate 2 PlayerColorTable
          ++ replicate 51 ShaderAssembly.
Proof.
  split; [by rewrite (init_run _ _ _ _ _ Hl Hc)|].
  rewrite (init_events_of _ _ _ _ _ Hl Hc). unfold init_events.
  exists (load_events (Z.of_nat (length tts)) (Z.of_nat (length bms))
          ++ tile_events ++ palette_events (length pcs)
          ++ shader_events (convert_playercolors pcs (length pcs))).
  split.
  - unfold callback_events. by rewrite <- !app_assoc.
  - unfold palette_events.
    generalize (convert_playercolors pcs (length pcs)).
    generalize (length pcs * 4)%nat.
    generalize (Z.of_nat (length tts)). generalize (Z.of_nat (length bms)).
    intros. vm_compute. reflexivity.
Qed.

Lemma init_unit_events :
  unit_events (events_of (init w) st)
  = [ Compiled plaintexture_vert; Compiled plaintexture_frag;
      Compiled teamcolor_frag; Compiled alphamask_vert; Compiled alphamask_frag;
      Attached texture_shader plaintexture_vert plaintexture_frag;
      Linked texture_shader;
      Attached teamcolor_shader plaintexture_vert teamcolor_frag;
      Linked teamcolor_shader;
      Attached alphamask_shader alphamask_vert alphamask_frag;
      Linked alphamask_shader;
      Released plaintexture_vert; Released plaintexture_frag;
      Released teamcolor_frag; Released alphamask_vert; Released alphamask_frag ].
Proof.
  concrete_init_events Hl Hc. intros. vm_compute. reflexivity.
Qed.

(** C7: in a complete run of [init] every shader object is released exactly
    once; when it is released, every program that was created from it has
    already been linked, and nothing after the release refers to it.  The
    vertex shader [plaintexture_vert] is attached to both the texture
    program and the team-colour program, and is released after both have
    been linked. *)
Theorem shader_units_released_after_linking :
  ∀ u : shader_var,
    ∃ l1 l2,
      unit_events (events_of (init w) st) = l1 ++ (Released u :: l2)
      ∧ (Released u ∉ l1 ++ l2)
      ∧ (∀ p v f, Attached p v f ∈ l1 ++ (Released u :: l2) →
                  u = v ∨ u = f → Linked p ∈ l1)
      ∧ (∀ e, e ∈ l2 → ¬ references e u)
      ∧ (u = plaintexture_vert →
         Attached texture_shader u plaintexture_frag ∈ l1
         ∧ Attached teamcolor_shader u teamcolor_frag ∈ l1
         ∧ Linked texture_shader ∈ l1 ∧ Linked teamcolor_shader ∈ l1).
Proof.
  intros u. rewrite init_unit_events.
  set (pre := [ Compiled plaintexture_vert; Compiled plaintexture_frag;
      Compiled teamcolor_frag; Compiled alphamask_vert; Compiled alphamask_frag;
      Attached texture_shader plaintexture_vert plaintexture_frag;
      Linked texture_shader;
      Attached teamcolor_shader plaintexture_vert teamcolor_frag;
      Linked teamcolor_shader;
      Attached alphamask_shader alphamask_vert alphamask_frag;
      Linked alphamask_shader ]).
  assert (Hpre : ∀ p v f l, Attached p v f ∈ pre ++ l →
                   (∀ e, e ∈ l → ∃ x, e = Released x) → Linked p ∈ pre).
  { intros p v f l Hin Hrel. apply elem_of_app in Hin as [Hin|Hin].
    - unfold pre in Hin |- *. in_cases Hin; inversion Hin; subst; in_list.
    - destruct (Hrel _ Hin) as [x Hx]. discriminate Hx. }
  assert (Hrefs : ∀ (l : list unit_event) e,
            (∀ e, e ∈ l → ∃ x, e = Released x) → e ∈ l → ¬ references e u).
  { intros l e Hrel Hin. destruct (Hrel _ Hin) as [x ->]. simpl. tauto. }
  assert (Hextend : ∀ p (l : list unit_event), Linked p ∈ pre → Linked p ∈ pre ++ l).
  { intros p l H. apply elem_of_app. by left. }
  destruct u.
  - exists pre, [Released plaintexture_frag; Released teamcolor_frag;
                 Released alphamask_vert; Released alphamask_frag].
    split; [reflexivity|]. split.
    { intros H. apply elem_of_app in H as [H|H]; in_cases H; discriminate H. }
    split.
    { intros p v f Hin _. apply (Hpre p v f _ Hin).
      intros e He. in_cases He; subst; eauto. }
    split.
    { intros e He. apply (λ H, Hrefs _ e H He). intros e' He'. in_cases He'; subst; eauto. }
    intros _. unfold pre. repeat split; in_list.
  - exists (pre ++ [Released plaintexture_vert]),
           [Released teamcolor_frag; Released alphamask_vert; Released alphamask_frag].
    split; [by rewrite <- app_assoc|]. split.
    { intros H. rewrite <- app_assoc in H.
      apply elem_of_app in H as [H|H]; in_cases H; discriminate H. }
    split.
    { intros p v f Hin _. apply Hextend. rewrite <- app_assoc in Hin.
      apply (Hpre p v f _ Hin). intros e He. in_cases He; subst; eauto. }
    split.
    { intros e He. apply (λ H, Hrefs _ e H He). intros e' He'. in_cases He'; subst; eauto. }
    intros H. discriminate H.
  - exists (pre ++ [Released plaintexture_vert; Released plaintexture_frag]),
           [Released alphamask_vert; Released alphamask_frag].
    split; [by rewrite <- app_assoc|]. split.
    { intros H. rewrite <- app_assoc in H.
      apply elem_of_app in H as [H|H]; in_cases H; discriminate H. }
    split.
    { intros p v f Hin _. apply Hextend. rewrite <- app_assoc in Hin.
      apply (Hpre p v f _ Hin). intros e He. in_cases He; subst; eauto. }
    split.
    { intros e He. apply (λ H, Hrefs _ e H He). intros e' He'. in_cases He'; subst; eauto. }
    intros H. discriminate H.
  - exists (pre ++ [Released plaintexture_vert; Released plaintexture_frag;
                    Released teamcolor_frag]),
           [Released alphamask_frag].
    split; [by rewrite <- app_assoc|]. split.
    { intros H. rewrite <- app_assoc in H.
      apply elem_of_app in H as [H|H]; in_cases H; discriminate H. }
    split.
    { intros p v f Hin _. apply Hextend. rewrite <- app_assoc in Hin.
      apply (Hpre p v f _ Hin). intros e He. in_cases He; subst; eauto. }
    split.
    { intros e He. apply (λ H, Hrefs _ e H He). intros e' He'. in_cases He'; subst; eauto. }
    intros H. discriminate H.
  - exists (pre ++ [Released plaintexture_vert; Released plaintexture_frag;
                    Released teamcolor_frag; Released alphamask_vert]), [].
    split; [by rewrite <- app_assoc|]. split.
    { intros H. rewrite <- app_assoc in H.
      apply elem_of_app in H as [H|H]; in_cases H; discriminate H. }
    split.
    { intros p v f Hin _. apply Hextend. rewrite <- app_assoc in Hin.
      apply (Hpre p v f _ Hin). intros e He. in_cases He; subst; eauto. }
    split.
    { intros e He. by apply elem_of_nil in He. }
    intros H. discriminate H.
Qed.

(** C8: in a complete run of [init] the uniform uploads are exactly these
    six, each made while the program that owns the uniform is the one in
    use, and the activations and deactivations pair up program by program:
    sampler unit 0 for the texture program, sampler unit 0, the alpha
    marker (the float nearest to 254/255) and the player-colour table (one
    call, count 64) for the team-colour program, and sampler units 0 and 1
    for the alpha-mask program.  The table that is passed holds four floats
    per loaded palette entry, slot [k] being the normalised channels of
    entry [k], each within rounding of c/255.  The call reads 64×4 floats:
    with 64 entries or more these are all floats of the table, so what is
    seeded is the normalised table; with fewer, the floats from offset
    [4 * pcolor_count] to 255 that it reads are not in the table at all, so
    what is seeded is not the 64×4 normalised table. *)
Theorem uniforms_seeded_in_bracket :
  let evs := events_of (init w) st in
  let table := convert_playercolors pcs (length pcs) in
  seeding None evs
  = [ (Some texture_shader, Uniform1i (UniformLoc texture_shader "texture") 0);
      (Some teamcolor_shader, Uniform1i (UniformLoc teamcolor_shader "texture") 0);
      (Some teamcolor_shader,
       Uniform1f (UniformLoc teamcolor_shader "alpha_marker") alpha_marker);
      (Some teamcolor_shader,
       Uniform4fv (UniformLoc teamcolor_shader "player_color") 64 table);
      (Some alphamask_shader, Uniform1i (UniformLoc alphamask_shader "base_texture") 0);
      (Some alphamask_shader, Uniform1i (UniformLoc alphamask_shader "mask_texture") 1) ]
  ∧ Forall (λ ae, is_Some (fst ae) ∧ fst ae = upload_target (snd ae)) (seeding None evs)
  ∧ brackets evs
    = [ Use texture_shader; StopUsing texture_shader;
        Use teamcolor_shader; StopUsing teamcolor_shader;
        Use alphamask_shader; StopUsing alphamask_shader ]
  ∧ approximates alpha_marker (254 # 255)
  ∧ length table = (length pcs * 4)%nat
  ∧ (∀ k e, pcs !! k = Some e → slot table k = Some (normalized e))
  ∧ (∀ c, is_channel c → approximates (channel c) (c # 255))
  ∧ ((64 ≤ length pcs)%nat →
     ∀ k, k ∈ Uniform4fv_reads 64 → ∃ x, table !! k = Some (Some x))
  ∧ ((length pcs < 64)%nat →
     ∀ k, (length pcs * 4 ≤ k < 64 * 4)%nat →
          k ∈ Uniform4fv_reads 64 ∧ table !! k = None).
Proof.
  intros evs table.
  assert (Hseed : seeding None evs
    = [ (Some texture_shader, Uniform1i (UniformLoc texture_shader "texture") 0);
        (Some teamcolor_shader, Uniform1i (UniformLoc teamcolor_shader "texture") 0);
        (Some teamcolor_shader,
         Uniform1f (UniformLoc teamcolor_shader "alpha_marker") alpha_marker);
        (Some teamcolor_shader,
         Uniform4fv (UniformLoc teamcolor_shader "player_color") 64 table);
        (Some alphamask_shader, Uniform1i (UniformLoc alphamask_shader "base_texture") 0);
        (Some alphamask_shader, Uniform1i (UniformLoc alphamask_shader "mask_texture") 1) ]).
  { unfold evs, table. rewrite alpha_marker_value. concrete_init_events Hl Hc.
    intros. vm_compute. reflexivity. }
  split; [exact Hseed|]. split.
  { rewrite Hseed. repeat constructor; simpl; eauto. }
  split.
  { unfold evs. concrete_init_events Hl Hc. intros. vm_compute. reflexivity. }
  split.
  { rewrite alpha_marker_value. split; [reflexivity|].
    vm_compute. intros H. discriminate H. }
  split; [apply length_convert_playercolors|].
  split; [intros k e He; by apply slot_convert_playercolors|].
  split; [intros c Hch; by apply channel_facts|].
  split.
  - intros Hfull k Hk. apply convert_playercolors_cell.
    unfold Uniform4fv_reads in Hk. apply list_elem_of_In, in_seq in Hk. lia.
  - intros Hshort k Hk. split.
    + unfold Uniform4fv_reads. apply list_elem_of_In, in_seq. lia.
    + apply lookup_ge_None. unfold table. rewrite length_convert_playercolors. lia.
Qed.

(** C10: in a complete run of [init] the only [glUniform4fv] call passes the
    count 64 and the staging array, which was allocated with, and has,
    [pcolor_count * 4] floats; with fewer than 64 palette entries, some of
    the offsets that the call reads lie beyond the end of that array. *)
Theorem player_color_upload_reads_past_buffer :
  let evs := events_of (init w) st in
  let playercolors := convert_playercolors pcs (length pcs) in
  uploads4fv evs
  = [ (UniformLoc teamcolor_shader "player_color", 64%nat, playercolors) ]
  ∧ NewFloatArray (length pcs * 4) ∈ evs
  ∧ length playercolors = (length pcs * 4)%nat
  ∧ ((length pcs < 64)%nat →
     ∃ k, k ∈ Uniform4fv_reads 64
          ∧ (length playercolors ≤ k)%nat ∧ playercolors !! k = None).
Proof.
  intros evs playercolors. split.
  { unfold evs, playercolors. concrete_init_events Hl Hc. intros.
    vm_compute. reflexivity. }
  split.
  { unfold evs. rewrite (init_events_of _ _ _ _ _ Hl Hc). unfold init_events.
    rewrite !elem_of_app. right; right; left. unfold palette_events.
    apply elem_of_cons; right. apply elem_of_cons. by left. }
  split; [apply length_convert_playercolors|].
  intros Hlt. exists 255%nat. split.
  { unfold Uniform4fv_reads. apply list_elem_of_In, in_seq. lia. }
  assert (Hlen : (length playercolors ≤ 255)%nat).
  { unfold playercolors. rewrite length_convert_playercolors. lia. }
  split; [exact Hlen | by apply lookup_ge_None].
Qed.

(** C4 (as amended): teardown after a complete run of [init] deletes the two
    standalone textures, then the three programs, then the entries
    [0 .. terrain_texture_count - 1] of [terrain_textures], then the entries
    [0 .. blend_mode_count - 1] of [blending_textures], then the priority
    list.  The two bounds are the module's counters, which [init] leaves as
    it found them, whatever the sizes of the tables it loaded;
    [blend_mode_count] is 9 unless other code has changed it. *)
Theorem teardown_order_and_bounds :
  ∃ st1 st2,
    run (init w) st = (inr tt, st1)
    ∧ run destroy st1 = (inr tt, st2)
    ∧ terrain_texture_count st1 = terrain_texture_count st
    ∧ blend_mode_count st1 = blend_mode_count st
    ∧ events_of destroy st1
      = [ DeleteTexture gaben; DeleteTexture university;
          DeleteProgram texture_shader; DeleteProgram teamcolor_shader;
          DeleteProgram alphamask_shader ]
        ++ map (DeleteArrayEntry terrain_textures) (seqZ 0 (terrain_texture_count st))
        ++ map (DeleteArrayEntry blending_textures) (seqZ 0 (blend_mode_count st))
        ++ [ DeleteTerrainPriorityList ]
    ∧ released terrain_textures (events_of destroy st1)
      = seqZ 0 (terrain_texture_count st)
    ∧ released blending_textures (events_of destroy st1)
      = seqZ 0 (blend_mode_count st)
    ∧ (blend_mode_count st = 9 →
       length (released blending_textures (events_of destroy st1)) = 9%nat).
Proof.
  eexists _, _.
  split; [apply (init_run _ _ _ _ _ Hl Hc)|].
  split; [apply destroy_run|].
  split; [reflexivity|]. split; [reflexivity|].
  rewrite destroy_events_of.
  cbn [terrain_texture_count blend_mode_count st_terrain st_emit].
  split; [reflexivity|].
  rewrite !released_destroy_events.
  split; [reflexivity|]. split; [reflexivity|].
  intros ->. reflexivity.
Qed.

Lemma init_set_tile_calls :
  set_tile_calls (events_of (init w) st)
  = map (λ pos, (pos, terrain_data_at (ne pos) (se pos))) (grid_cells 20).
Proof.
  rewrite <- set_tile_calls_tile_events.
  concrete_init_events Hl Hc. intros. vm_compute. reflexivity.
Qed.

(** C5: a complete run of [init] calls [set_tile] exactly 400 times, once
    for each cell of the 20×20 matrix, the call for cell (i, j) being the
    (20·i + j)-th, with the matrix entry as id.  Afterwards every cell of
    the grid holds its matrix entry, which is an id of the loaded table and
    one of 3, 7, 9, 11, 12, 13, 14, 17, 18, 19, 20; cell (0,0) holds 7 and
    cell (5,2) holds 20. *)
Theorem every_tile_set_from_terrain_data :
  ∃ st' T,
    run (init w) st = (inr tt, st') ∧ terrain st' = Some T
    ∧ length (set_tile_calls (events_of (init w) st)) = 400%nat
    ∧ (∀ i j : nat, (i < 20)%nat → (j < 20)%nat →
         set_tile_calls (events_of (init w) st) !! (i * 20 + j)%nat
         = Some ({| ne := Z.of_nat i; se := Z.of_nat j |},
                 terrain_data_at (Z.of_nat i) (Z.of_nat j)))
    ∧ (∀ i j, 0 ≤ i < 20 → 0 ≤ j < 20 →
         tiles T !! (i, j) = Some (terrain_data_at i j)
         ∧ 0 ≤ terrain_data_at i j < terrain_type_count T
         ∧ terrain_data_at i j ∈ [3; 7; 9; 11; 12; 13; 14; 17; 18; 19; 20])
    ∧ tiles T !! (0, 0) = Some 7
    ∧ tiles T !! (5, 2) = Some 20.
Proof.
  eexists _, (terrain_after_init tts bms).
  split; [apply (init_run _ _ _ _ _ Hl Hc)|].
  split; [reflexivity|].
  rewrite init_set_tile_calls.
  split; [vm_compute; reflexivity|].
  split; [apply row_major|].
  assert (Htiles : tiles (terrain_after_init tts bms) = set_tiles (grid_cells 20) ∅)
    by reflexivity.
  assert (Hn : terrain_type_count (terrain_after_init tts bms) = Z.of_nat (length tts))
    by reflexivity.
  rewrite Htiles, Hn. split.
  { intros i j Hi Hj. destruct (tiles_after_sweep i j Hi Hj) as (H1 & H2 & H3).
    split; [exact H1|]. split; [lia | exact H3]. }
  split.
  - apply (tiles_after_sweep 0 0); lia.
  - apply (tiles_after_sweep 5 2); lia.
Qed.

Lemma init_uploads4fv :
  uploads4fv (events_of (init w) st)
  = [ (UniformLoc teamcolor_shader "player_color", 64%nat,
       convert_playercolors pcs (length pcs)) ].
Proof.
  concrete_init_events Hl Hc. intros. vm_compute. reflexivity.
Qed.

Section Entry.

(** An entry of the loaded palette, at position [i]. *)
Context (i : nat) (e : player_color_line).
Hypothesis He : pcs !! i = Some e.

(** C1 (as amended): for every loaded palette entry with channels in
    [0, 255], [init] converts the channels to the floats nearest to r/255,
    g/255, b/255 and a/255, and the quadruple is found, in the table that
    is uploaded, at the slot of the entry's position in the loaded file
    (not of its index field).  The conversion is strictly increasing, hence
    one-to-one, on [0, 255], with values in [0, 1] and 255 going to 1.0; the
    line [5=10,20,30,255] ends up as (10/255, 20/255, 30/255, 1.0) at the
    slot that is the number of lines before it. *)
Theorem player_colors_placed_by_position :
  is_channel (r e) → is_channel (g e) → is_channel (b e) → is_channel (a e) →
  (∃ table,
     uploads4fv (events_of (init w) st)
     = [ (UniformLoc teamcolor_shader "player_color", 64%nat, table) ]
     ∧ slot table i = Some (normalized e))
  ∧ approximates (channel (r e)) (r e # 255)
  ∧ approximates (channel (g e)) (g e # 255)
  ∧ approximates (channel (b e)) (b e # 255)
  ∧ approximates (channel (a e)) (a e # 255)
  ∧ (∀ c1 c2, is_channel c1 → is_channel c2 → c1 < c2 →
              GL.fltb (channel c1) (channel c2) = true)
  ∧ (∀ c1 c2, is_channel c1 → is_channel c2 → channel c1 = channel c2 → c1 = c2)
  ∧ (∀ c, is_channel c → (0 <= GL.to_Q (channel c) <= 1)%Q)
  ∧ channel 255 = GL.fone
  ∧ (∀ before after,
       player_color_palette w = before ++ "5=10,20,30,255" :: after →
       slot (convert_playercolors pcs (length pcs)) (length before)
       = Some (channel 10, channel 20, channel 30, GL.fone)).
Proof.
  intros Hr Hg Hb Ha. split.
  { eexists. split; [apply init_uploads4fv|].
    by apply slot_convert_playercolors. }
  split; [by apply channel_facts|]. split; [by apply channel_facts|].
  split; [by apply channel_facts|]. split; [by apply channel_facts|].
  split; [apply channel_increasing|]. split; [apply channel_injective|].
  split; [intros c Hch; by apply channel_facts|].
  split; [vm_compute; reflexivity|].
  intros before after Hpal. pose proof Hl as (_ & _ & Hp). rewrite Hpal in Hp.
  apply read_csv_file_lookup in Hp.
  rewrite (slot_convert_playercolors _ _ _ Hp). vm_compute. reflexivity.
Qed.

(** C9 (as amended): no palette index is checked.  [fill] accepts a line
    with any index once its five numbers are converted, and [init] completes
    normally on a palette that has an entry with index 64 or more, which is
    converted at its position in the file like any other. *)
Theorem palette_index_not_checked :
  64 ≤ idx e →
  fst (run (init w) st) = inr tt
  ∧ (∃ table,
       uploads4fv (events_of (init w) st)
       = [ (UniformLoc teamcolor_shader "player_color", 64%nat, table) ]
       ∧ slot table i = Some (normalized e))
  ∧ (∀ this line vi vr vg vb va,
       Scanf.sscanf Scanf.color_line_format line = [vi; vr; vg; vb; va] →
       fill this line = (0, {| idx := vi; r := vr; g := vg; b := vb; a := va |})).
Proof.
  intros Hidx.
  split; [by rewrite (init_run _ _ _ _ _ Hl Hc)|]. split.
  { eexists. split; [apply init_uploads4fv|].
    by apply slot_convert_playercolors. }
  intros this line vi vr vg vb va Hscan. unfold fill. by rewrite Hscan.
Qed.

End Entry.

End CompleteRun.

(* ===================================================================== *)
(** * Where the specification and the code differ                        *)
(* ===================================================================== *)

(** C1: a palette whose only line is [5=10,20,30,255] loads to one entry,
    which is converted into slot 0; the table has no slot 5. *)
Lemma placed_by_index_fails : ¬ placed_by_index.
Proof.
  intros H.
  assert (Hslot : slot (convert_playercolors
                          [ {| idx := 5; r := 10; g := 20; b := 30; a := 255 |} ] 1) 5
                  = None) by (vm_compute; reflexivity).
  assert (Hread : read_csv_file ["5=10,20,30,255"%string]
                  = inr [ {| idx := 5; r := 10; g := 20; b := 30; a := 255 |} ])
    by (vm_compute; reflexivity).
  assert (Hch : ∀ c, c ∈ [10; 20; 30; 255] → is_channel c).
  { intros c Hc. unfold is_channel. in_cases Hc; subst; lia. }
  specialize (H _ _ {| idx := 5; r := 10; g := 20; b := 30; a := 255 |} Hread
                ltac:(apply list_elem_of_singleton; reflexivity)
                ltac:(apply Hch; in_list) ltac:(apply Hch; in_list)
                ltac:(apply Hch; in_list) ltac:(apply Hch; in_list)).
  cbn [length idx] in H. change (Z.to_nat 5) with 5%nat in H.
  rewrite Hslot in H. discriminate H.
Qed.

(** C4: with five blending modes loaded, teardown still deletes nine entries
    of [blending_textures]. *)
Lemma released_as_loaded_fails : ¬ released_as_loaded.
Proof.
  intros H.
  assert (Hl : loads (sample_world 5 sample_palette) sample_terrain_types
                 (sample_blending_modes 5) sample_colors)
    by (repeat split; vm_compute; reflexivity).
  assert (Hc : (20 < length sample_terrain_types)%nat) by (vm_compute; lia).
  specialize (H _ _ _ _ (initial_state 0) _ _ Hl
                (init_run _ _ _ _ _ Hl Hc) (destroy_run _)).
  rewrite destroy_events_of, released_destroy_events in H.
  vm_compute in H. discriminate H.
Qed.

(** C9: a palette whose only line has index 64 is loaded and [init] returns
    normally. *)
Lemma index_checked_fails : ¬ index_checked.
Proof.
  intros H.
  assert (Hl : loads (sample_world 9 ["64=1,2,3,4"%string]) sample_terrain_types
                 (sample_blending_modes 9)
                 [ {| idx := 64; r := 1; g := 2; b := 3; a := 4 |} ])
    by (repeat split; vm_compute; reflexivity).
  assert (Hc : (20 < length sample_terrain_types)%nat) by (vm_compute; lia).
  destruct (H (sample_world 9 ["64=1,2,3,4"%string]) (initial_state 0)
              "64=1,2,3,4"%string
              {| idx := 64; r := 1; g := 2; b := 3; a := 4 |}) as [err Herr].
  - apply list_elem_of_singleton. reflexivity.
  - vm_compute. reflexivity.
  - simpl. lia.
  - rewrite (init_run _ _ _ _ _ Hl Hc) in Herr. discriminate Herr.
Qed.

(* ===================================================================== *)
(** * The theorems at the sample files                                   *)
(* ===================================================================== *)

Lemma sample_loads :
  loads (sample_world 9 sample_palette) sample_terrain_types
        (sample_blending_modes 9) sample_colors.
Proof. repeat split; vm_compute; reflexivity. Defined.

Lemma full_loads :
  loads (sample_world 9 full_palette) sample_terrain_types
        (sample_blending_modes 9) full_colors.
Proof. repeat split; vm_compute; reflexivity. Defined.

Lemma sample_terrain_types_count : (20 < length sample_terrain_types)%nat.
Proof. vm_compute. lia. Defined.

Lemma player_colors_placed_by_position_witness :
  loads (sample_world 9 sample_palette) sample_terrain_types
        (sample_blending_modes 9) sample_colors
  ∧ (20 < length sample_terrain_types)%nat
  ∧ sample_colors !! 5%nat = Some {| idx := 5; r := 10; g := 20; b := 30; a := 255 |}
  ∧ (∃ table,
       uploads4fv (events_of (init (sample_world 9 sample_palette)) (initial_state 0))
       = [ (UniformLoc teamcolor_shader "player_color", 64%nat, table) ]
       ∧ slot table 5
         = Some (normalized {| idx := 5; r := 10; g := 20; b := 30; a := 255 |}))
  ∧ approximates (channel 10) (10 # 255).
Proof.
  assert (Hch : ∀ c, c ∈ [10; 20; 30; 255] → is_channel c).
  { intros c Hc. unfold is_channel. in_cases Hc; subst; lia. }
  pose proof (player_colors_placed_by_position
                (sample_world 9 sample_palette) sample_terrain_types
                (sample_blending_modes 9) sample_colors (initial_state 0)
                sample_loads sample_terrain_types_count 5
                {| idx := 5; r := 10; g := 20; b := 30; a := 255 |} eq_refl
                ltac:(apply Hch; in_list) ltac:(apply Hch; in_list)
                ltac:(apply Hch; in_list) ltac:(apply Hch; in_list))
    as (Hslot & Hr & _).
  split; [exact sample_loads|]. split; [exact sample_terrain_types_count|].
  split; [reflexivity|]. split; [exact Hslot | exact Hr].
Defined.

Lemma priority_ordering_stable_descending_witness :
  terrain_meta (sample_world 9 sample_palette) = inr sample_terrain_types
  ∧ blending_meta (sample_world 9 sample_palette) = inr (sample_blending_modes 9)
  ∧ ∃ st' T,
      run (init_load (sample_world 9 sample_palette)) (initial_state 0) = (inr tt, st')
      ∧ terrain st' = Some T
      ∧ priority_ordering T = map tt_id (priority_sort sample_terrain_types)
      ∧ priority_ordering T ≡ₚ map tt_id sample_terrain_types.
Proof.
  destruct (priority_ordering_stable_descending
              (sample_world 9 sample_palette) sample_terrain_types
              (sample_blending_modes 9) (initial_state 0) eq_refl eq_refl)
    as (st' & T & Hrun & HT & Hord & Hperm & _).
  split; [reflexivity|]. split; [reflexivity|].
  exists st', T. repeat split; assumption.
Defined.

Lemma init_phases_in_order_witness :
  loads (sample_world 9 sample_palette) sample_terrain_types
        (sample_blending_modes 9) sample_colors
  ∧ (20 < length sample_terrain_types)%nat
  ∧ fst (run (init (sample_world 9 sample_palette)) (initial_state 0)) = inr tt.
Proof.
  split; [exact sample_loads|]. split; [exact sample_terrain_types_count|].
  exact (proj1 (init_phases_in_order _ _ _ _ (initial_state 0)
                  sample_loads sample_terrain_types_count)).
Defined.

Lemma teardown_order_and_bounds_witness :
  loads (sample_world 9 sample_palette) sample_terrain_types
        (sample_blending_modes 9) sample_colors
  ∧ (20 < length sample_terrain_types)%nat
  ∧ ∃ st1 st2,
      run (init (sample_world 9 sample_palette)) (initial_state 21) = (inr tt, st1)
      ∧ run destroy st1 = (inr tt, st2)
      ∧ released terrain_textures (events_of destroy st1) = seqZ 0 21
      ∧ released blending_textures (events_of destroy st1) = seqZ 0 9.
Proof.
  destruct (teardown_order_and_bounds _ _ _ _ (initial_state 21)
              sample_loads sample_terrain_types_count)
    as (st1 & st2 & Hinit & Hdestroy & _ & _ & _ & Hterrain & Hblend & _).
  split; [exact sample_loads|]. split; [exact sample_terrain_types_count|].
  exists st1, st2. repeat split; assumption.
Defined.

Lemma every_tile_set_from_terrain_data_witness :
  loads (sample_world 9 sample_palette) sample_terrain_types
        (sample_blending_modes 9) sample_colors
  ∧ (20 < length sample_terrain_types)%nat
  ∧ ∃ st' T,
      run (init (sample_world 9 sample_palette)) (initial_state 0) = (inr tt, st')
      ∧ terrain st' = Some T
      ∧ tiles T !! (0, 0) = Some 7
      ∧ tiles T !! (5, 2) = Some 20.
Proof.
  destruct (every_tile_set_from_terrain_data _ _ _ _ (initial_state 0)
              sample_loads sample_terrain_types_count)
    as (st' & T & Hrun & HT & _ & _ & _ & H00 & H52).
  split; [exact sample_loads|]. split; [exact sample_terrain_types_count|].
  exists st', T. repeat split; assumption.
Defined.

Lemma set_tile_rejects_invalid_id_witness :
  let T := new_Terrain 20 21 sample_terrain_types 9 (sample_blending_modes 9) in
  let st := st_terrain T (initial_state 0) in
  ¬ (0 ≤ 21 < terrain_type_count T)
  ∧ terrain st = Some T
  ∧ set_tile T {| ne := 3; se := 4 |} 21 = inl InvalidTerrainId
  ∧ fst (run (Terrain_set_tile {| ne := 3; se := 4 |} 21) st) = inl InvalidTerrainId
  ∧ terrain (snd (run (Terrain_set_tile {| ne := 3; se := 4 |} 21) st)) = Some T.
Proof.
  intros T st.
  assert (Hid : ¬ (0 ≤ 21 < terrain_type_count T)) by (simpl; lia).
  destruct (set_tile_rejects_invalid_id T {| ne := 3; se := 4 |} 21 st Hid eq_refl)
    as (Hset & Hfst & Hsnd & _).
  split; [exact Hid|]. split; [reflexivity|]. repeat split; assumption.
Defined.

Lemma shader_units_released_after_linking_witness :
  loads (sample_world 9 sample_palette) sample_terrain_types
        (sample_blending_modes 9) sample_colors
  ∧ (20 < length sample_terrain_types)%nat
  ∧ ∃ l1 l2,
      unit_events (events_of (init (sample_world 9 sample_palette)) (initial_state 0))
      = l1 ++ Released plaintexture_vert :: l2
      ∧ (Released plaintexture_vert ∉ l1 ++ l2)
      ∧ Linked texture_shader ∈ l1 ∧ Linked teamcolor_shader ∈ l1.
Proof.
  destruct (shader_units_released_after_linking _ _ _ _ (initial_state 0)
              sample_loads sample_terrain_types_count plaintexture_vert)
    as (l1 & l2 & Heq & Hnot & _ & _ & Hvert).
  destruct (Hvert eq_refl) as (_ & _ & Ht & Htc).
  split; [exact sample_loads|]. split; [exact sample_terrain_types_count|].
  exists l1, l2. repeat split; assumption.
Defined.

Lemma uniforms_seeded_in_bracket_witness :
  (loads (sample_world 9 sample_palette) sample_terrain_types
         (sample_blending_modes 9) sample_colors
   ∧ (20 < length sample_terrain_types)%nat
   ∧ (length sample_colors < 64)%nat
   ∧ brackets (events_of (init (sample_world 9 sample_palette)) (initial_state 0))
     = [ Use texture_shader; StopUsing texture_shader;
         Use teamcolor_shader; StopUsing teamcolor_shader;
         Use alphamask_shader; StopUsing alphamask_shader ]
   ∧ length (convert_playercolors sample_colors (length sample_colors)) = 32%nat
   ∧ slot (convert_playercolors sample_colors (length sample_colors)) 5
     = Some (normalized {| idx := 5; r := 10; g := 20; b := 30; a := 255 |})
   ∧ 255%nat ∈ Uniform4fv_reads 64
   ∧ convert_playercolors sample_colors (length sample_colors) !! 255%nat = None)
  ∧ (loads (sample_world 9 full_palette) sample_terrain_types
           (sample_blending_modes 9) full_colors
     ∧ (64 ≤ length full_colors)%nat
     ∧ length (convert_playercolors full_colors (length full_colors)) = (64 * 4)%nat
     ∧ ∃ x, convert_playercolors full_colors (length full_colors) !! 255%nat
            = Some (Some x)).
Proof.
  assert (Hshort : (length sample_colors < 64)%nat) by (vm_compute; lia).
  assert (Hfull : (64 ≤ length full_colors)%nat) by (vm_compute; lia).
  destruct (uniforms_seeded_in_bracket _ _ _ _ (initial_state 0)
              sample_loads sample_terrain_types_count)
    as (_ & _ & Hbr & _ & Hlen & Hslot & _ & _ & Hbeyond).
  destruct (Hbeyond Hshort 255%nat ltac:(vm_compute; lia)) as [Hread Hnone].
  destruct (uniforms_seeded_in_bracket _ _ _ _ (initial_state 0)
              full_loads sample_terrain_types_count)
    as (_ & _ & _ & _ & Hlen' & _ & _ & Hwithin & _).
  split.
  - split; [exact sample_loads|]. split; [exact sample_terrain_types_count|].
    split; [exact Hshort|]. split; [exact Hbr|]. split; [exact Hlen|].
    split; [exact (Hslot 5%nat _ eq_refl)|]. split; [exact Hread | exact Hnone].
  - split; [exact full_loads|]. split; [exact Hfull|]. split; [exact Hlen'|].
    exact (Hwithin Hfull 255%nat Hread).
Defined.

Lemma palette_index_not_checked_witness :
  loads (sample_world 9 ["64=1,2,3,4"%string]) sample_terrain_types
        (sample_blending_modes 9) [ {| idx := 64; r := 1; g := 2; b := 3; a := 4 |} ]
  ∧ (20 < length sample_terrain_types)%nat
  ∧ 64 ≤ idx {| idx := 64; r := 1; g := 2; b := 3; a := 4 |}
  ∧ fst (run (init (sample_world 9 ["64=1,2,3,4"%string])) (initial_state 0)) = inr tt.
Proof.
  assert (Hl : loads (sample_world 9 ["64=1,2,3,4"%string]) sample_terrain_types
                 (sample_blending_modes 9)
                 [ {| idx := 64; r := 1; g := 2; b := 3; a := 4 |} ])
    by (repeat split; vm_compute; reflexivity).
  assert (Hidx : 64 ≤ idx {| idx := 64; r := 1; g := 2; b := 3; a := 4 |})
    by (simpl; lia).
  split; [exact Hl|]. split; [exact sample_terrain_types_count|].
  split; [exact Hidx|].
  exact (proj1 (palette_index_not_checked _ _ _ _ (initial_state 0)
                  Hl sample_terrain_types_count 0 _ eq_refl Hidx)).
Defined.

Lemma player_color_upload_reads_past_buffer_witness :
  loads (sample_world 9 sample_palette) sample_terrain_types
        (sample_blending_modes 9) sample_colors
  ∧ (20 < length sample_terrain_types)%nat
  ∧ (length sample_colors < 64)%nat
  ∧ ∃ k, k ∈ Uniform4fv_reads 64
         ∧ (length (convert_playercolors sample_colors (length sample_colors)) ≤ k)%nat
         ∧ convert_playercolors sample_colors (length sample_colors) !! k = None.
Proof.
  assert (Hlt : (length sample_colors < 64)%nat) by (vm_compute; lia).
  destruct (player_color_upload_reads_past_buffer _ _ _ _ (initial_state 0)
              sample_loads sample_terrain_types_count)
    as (_ & _ & _ & Hbeyond).
  split; [exact sample_loads|]. split; [exact sample_terrain_types_count|].
  split; [exact Hlt | exact (Hbeyond Hlt)].
Defined.

(* ===================================================================== *)
(** * Parsing a palette line                                             *)
(* ===================================================================== *)

Section Parsing.

Lemma digit_cases d (P : Z → Prop) :
  0 ≤ d ≤ 9 →
  P 0 → P 1 → P 2 → P 3 → P 4 → P 5 → P 6 → P 7 → P 8 → P 9 → P d.
Proof.
  intros Hd P0 P1 P2 P3 P4 P5 P6 P7 P8 P9.
  assert (Hcase : d = 0 ∨ d = 1 ∨ d = 2 ∨ d = 3 ∨ d = 4 ∨ d = 5 ∨ d = 6
                  ∨ d = 7 ∨ d = 8 ∨ d = 9) by lia.
  repeat (destruct Hcase as [->|Hcase]; [assumption|]). by subst.
Qed.

Lemma digit_of_digit_char d :
  0 ≤ d ≤ 9 → Scanf.digit_of (Printf.digit_char d) = Some d.
Proof. intros Hd. pattern d. by apply digit_cases. Qed.

(** A digit is neither white space nor a sign. *)
Lemma scan_u_at_digit d s :
  0 ≤ d ≤ 9 →
  Scanf.scan_u (String (Printf.digit_char d) s)
  = let '(v, any, rest) := Scanf.scan_digits (String (Printf.digit_char d) s) 0 false in
    if any then Some (Scanf.to_uint (Scanf.strtoul false v), rest) else None.
Proof. intros Hd. pattern d. by apply digit_cases. Qed.

Lemma digits_S fuel n acc :
  Printf.digits (S fuel) n acc
  = if n <? 10 then String (Printf.digit_char (n mod 10)) acc
    else Printf.digits fuel (n / 10) (String (Printf.digit_char (n mod 10)) acc).
Proof. reflexivity. Qed.

Lemma scan_digits_cons c s acc any :
  Scanf.scan_digits (String c s) acc any
  = match Scanf.digit_of c with
    | Some d => Scanf.scan_digits s (10 * acc + d) true
    | None => (acc, any, String c s)
    end.
Proof. reflexivity. Qed.

Lemma digits_head fuel : ∀ n acc,
  0 ≤ n → ∃ d s, 0 ≤ d ≤ 9 ∧ Printf.digits (S fuel) n acc = String (Printf.digit_char d) s.
Proof.
  induction fuel as [|fuel IH]; intros n acc Hn; rewrite digits_S.
  - exists (n mod 10), acc. split; [pose proof (Z.mod_pos_bound n 10); lia|].
    by destruct (n <? 10).
  - destruct (n <? 10).
    + exists (n mod 10), acc. split; [pose proof (Z.mod_pos_bound n 10); lia | done].
    + apply IH. apply Z.div_pos; lia.
Qed.

Lemma digits_scan fuel : ∀ n acc any,
  0 ≤ n < 10 ^ Z.of_nat (S fuel) →
  Scanf.scan_digits (Printf.digits (S fuel) n acc) 0 any
  = Scanf.scan_digits acc n true.
Proof.
  induction fuel as [|fuel IH]; intros n acc any Hn; rewrite digits_S.
  - assert (Hlt : n < 10) by (change (10 ^ Z.of_nat 1) with 10 in Hn; lia).
    assert (Hmod : n mod 10 = n) by (apply Z.mod_small; lia).
    rewrite Hmod. change (Printf.digits 0 (n / 10) ?x) with x.
    destruct (n <? 10); rewrite scan_digits_cons, digit_of_digit_char by lia;
      f_equal; lia.
  - destruct (n <? 10) eqn:E.
    + apply Z.ltb_lt in E.
      assert (Hmod : n mod 10 = n) by (apply Z.mod_small; lia).
      rewrite Hmod, scan_digits_cons, digit_of_digit_char by lia. f_equal; lia.
    + apply Z.ltb_ge in E. rewrite IH.
      * rewrite scan_digits_cons,
          digit_of_digit_char by (pose proof (Z.mod_pos_bound n 10); lia).
        f_equal. pose proof (Z.div_mod n 10 ltac:(lia)). lia.
      * split; [apply Z.div_pos; lia|].
        apply Z.div_lt_upper_bound; [lia|].
        rewrite (Nat2Z.inj_succ (S fuel)), Z.pow_succ_r in Hn by lia. lia.
Qed.

Lemma digits_app fuel : ∀ n acc rest,
  Printf.digits fuel n acc +:+ rest = Printf.digits fuel n (acc +:+ rest).
Proof.
  induction fuel as [|fuel IH]; intros n acc rest; simpl; [done|].
  destruct (n <? 10); [done|]. by rewrite IH.
Qed.

Lemma scan_digits_stop rest n :
  no_digit_ahead rest → Scanf.scan_digits rest n true = (n, true, rest).
Proof. intros H. destruct rest as [|c rest]; simpl in *; [done|]. by rewrite H. Qed.

(** [%u] reads back what [%u] wrote, and leaves the text behind it. *)
Lemma scan_u_printf_u n rest :
  is_uint n → no_digit_ahead rest →
  Scanf.scan_u (Printf.printf_u n +:+ rest) = Some (n, rest).
Proof.
  intros [Hn0 Hn1] Hrest. unfold Printf.printf_u.
  rewrite digits_app. change ("" +:+ rest) with rest.
  destruct (digits_head 9 n rest Hn0) as (d & s & Hd & Heq).
  rewrite Heq, (scan_u_at_digit d s Hd), <- Heq.
  rewrite digits_scan by (change (10 ^ Z.of_nat 10) with 10000000000; lia).
  rewrite (scan_digits_stop rest n Hrest).
  unfold Scanf.to_uint, Scanf.strtoul.
  destruct (2 ^ 64 <=? n) eqn:E; [apply Z.leb_le in E; lia|].
  rewrite (Z.mod_small n (2 ^ 64)) by lia. by rewrite Z.mod_small by lia.
Qed.

Lemma string_app_assoc (s1 s2 s3 : string) : (s1 +:+ s2) +:+ s3 = s1 +:+ (s2 +:+ s3).
Proof.
  induction s1 as [|c s1 IH]; [done|].
  change (String c ((s1 +:+ s2) +:+ s3) = String c (s1 +:+ (s2 +:+ s3))).
  by rewrite IH.
Qed.

Lemma sscanf_conv fmt s v rest :
  Scanf.scan_u s = Some (v, rest) →
  Scanf.sscanf (Scanf.ConvU :: fmt) s = v :: Scanf.sscanf fmt rest.
Proof. intros H. cbn [Scanf.sscanf]. by rewrite H. Qed.

Lemma sscanf_lit fmt c s :
  Scanf.sscanf (Scanf.Lit c :: fmt) (String c "" +:+ s) = Scanf.sscanf fmt s.
Proof.
  change (String c "" +:+ s) with (String c s). cbn [Scanf.sscanf Scanf.scan_lit].
  by rewrite Ascii.eqb_refl.
Qed.

Lemma no_digit_ahead_lit c s :
  Scanf.digit_of c = None → no_digit_ahead (String c "" +:+ s).
Proof. intros H. change (String c "" +:+ s) with (String c s). exact H. Qed.

Lemma sscanf_palette_line e rest :
  uint_fields e → no_digit_ahead rest →
  Scanf.sscanf Scanf.color_line_format (palette_line e +:+ rest)
  = [idx e; r e; g e; b e; a e].
Proof.
  intros (Hi & Hr & Hg & Hb & Ha) Hrest. unfold palette_line.
  rewrite !string_app_assoc. unfold Scanf.color_line_format.
  rewrite (sscanf_conv _ _ _ _ (scan_u_printf_u _ _ Hi (no_digit_ahead_lit "="%char _ eq_refl))).
  rewrite sscanf_lit.
  rewrite (sscanf_conv _ _ _ _ (scan_u_printf_u _ _ Hr (no_digit_ahead_lit ","%char _ eq_refl))).
  rewrite sscanf_lit.
  rewrite (sscanf_conv _ _ _ _ (scan_u_printf_u _ _ Hg (no_digit_ahead_lit ","%char _ eq_refl))).
  rewrite sscanf_lit.
  rewrite (sscanf_conv _ _ _ _ (scan_u_printf_u _ _ Hb (no_digit_ahead_lit ","%char _ eq_refl))).
  rewrite sscanf_lit.
  rewrite (sscanf_conv _ _ _ _ (scan_u_printf_u _ _ Ha Hrest)).
  reflexivity.
Qed.

(** X1: [fill] reads back every record from the line that ["%u=%u,%u,%u,%u"]
    writes for it, whatever followed by text that does not go on with a
    digit, and whatever the object held before. *)
Theorem fill_reads_palette_line (this e : player_color_line) (rest : string) :
  uint_fields e → no_digit_ahead rest →
  fill this (palette_line e +:+ rest) = (0, e).
Proof.
  intros He Hrest. unfold fill. rewrite (sscanf_palette_line e rest He Hrest).
  simpl. by destruct e.
Qed.

(** A minus sign in front of the digits: the number is negated as an
    [unsigned long] and then stored into the [unsigned int]. *)
Lemma scan_u_minus n rest :
  1 ≤ n < 2 ^ 32 → no_digit_ahead rest →
  Scanf.scan_u ("-" +:+ Printf.printf_u n +:+ rest) = Some (2 ^ 32 - n, rest).
Proof.
  intros Hn Hrest.
  change ("-" +:+ Printf.printf_u n +:+ rest)
    with (String "-"%char (Printf.printf_u n +:+ rest)).
  change (Scanf.scan_u (String "-"%char (Printf.printf_u n +:+ rest)))
    with (let '(v, any, rest') := Scanf.scan_digits (Printf.printf_u n +:+ rest) 0 false in
          if any then Some (Scanf.to_uint (Scanf.strtoul true v), rest') else None).
  unfold Printf.printf_u. rewrite digits_app. change ("" +:+ rest) with rest.
  rewrite digits_scan by (change (10 ^ Z.of_nat 10) with 10000000000; lia).
  rewrite (scan_digits_stop rest n Hrest).
  unfold Scanf.to_uint, Scanf.strtoul.
  destruct (2 ^ 64 <=? n) eqn:E; [apply Z.leb_le in E; lia|].
  assert (H64 : (- n) mod 2 ^ 64 = 2 ^ 64 - n).
  { symmetry. apply (Z.mod_unique_pos _ _ (-1)); lia. }
  assert (H32 : (2 ^ 64 - n) mod 2 ^ 32 = 2 ^ 32 - n).
  { symmetry. apply (Z.mod_unique_pos _ _ (2 ^ 32 - 1)); lia. }
  by rewrite H64, H32.
Qed.

Lemma sscanf_minus_palette_line e rest :
  uint_fields e → 1 ≤ idx e → no_digit_ahead rest →
  Scanf.sscanf Scanf.color_line_format ("-" +:+ palette_line e +:+ rest)
  = [2 ^ 32 - idx e; r e; g e; b e; a e].
Proof.
  intros (Hi & Hr & Hg & Hb & Ha) Hpos Hrest. unfold palette_line.
  rewrite !string_app_assoc. unfold Scanf.color_line_format.
  rewrite (sscanf_conv _ _ _ _
             (scan_u_minus (idx e) _ ltac:(unfold is_uint in Hi; lia)
                (no_digit_ahead_lit "="%char _ eq_refl))).
  rewrite sscanf_lit.
  rewrite (sscanf_conv _ _ _ _ (scan_u_printf_u _ _ Hr (no_digit_ahead_lit ","%char _ eq_refl))).
  rewrite sscanf_lit.
  rewrite (sscanf_conv _ _ _ _ (scan_u_printf_u _ _ Hg (no_digit_ahead_lit ","%char _ eq_refl))).
  rewrite sscanf_lit.
  rewrite (sscanf_conv _ _ _ _ (scan_u_printf_u _ _ Hb (no_digit_ahead_lit ","%char _ eq_refl))).
  rewrite sscanf_lit.
  rewrite (sscanf_conv _ _ _ _ (scan_u_printf_u _ _ Ha Hrest)).
  reflexivity.
Qed.

(** X2: [fill] accepts a palette line whose index is written with a minus
    sign, and stores the index wrapped around: the line of a record with
    index [n], [1 ≤ n < 2^32], with ["-"] in front, fills the object with
    index [2^32 - n] and with the four colour fields of the record,
    whatever the object held before. *)
Theorem fill_wraps_negative_index (this e : player_color_line) (rest : string) :
  uint_fields e → 1 ≤ idx e → no_digit_ahead rest →
  fill this ("-" +:+ palette_line e +:+ rest) = (0, with_idx (2 ^ 32 - idx e) e).
Proof.
  intros He Hpos Hrest. unfold fill.
  rewrite (sscanf_minus_palette_line e rest He Hpos Hrest). reflexivity.
Qed.

Lemma skip_space_length s :
  (String.length (Scanf.skip_space s) ≤ String.length s)%nat.
Proof.
  induction s as [|c s IH]; simpl; [done|]. destruct (Scanf.is_space c); simpl; lia.
Qed.

Lemma scan_digits_length s : ∀ acc any v any' rest,
  Scanf.scan_digits s acc any = (v, any', rest) →
  (String.length rest ≤ String.length s)%nat
  ∧ (any = false → any' = true → (String.length rest < String.length s)%nat).
Proof.
  induction s as [|c s IH]; intros acc any v any' rest; simpl.
  - intros H. injection H as <- <- <-. split; [done|]. intros ->. done.
  - destruct (Scanf.digit_of c).
    + intros H. apply IH in H as [H _]. split; simpl; lia.
    + intros H. injection H as <- <- <-. split; [done|]. intros ->. done.
Qed.

Lemma scan_u_length s v rest :
  Scanf.scan_u s = Some (v, rest) → (String.length rest < String.length s)%nat.
Proof.
  unfold Scanf.scan_u. pose proof (skip_space_length s) as Hsk.
  destruct (Scanf.skip_space s) as [|c s0]; [simpl; intros H; discriminate H|].
  assert (Hsign : ∀ (neg : bool) (s1 : string),
            (String.length s1 ≤ String.length (String c s0))%nat →
            (let '(v', any, rest') := Scanf.scan_digits s1 0 false in
             if any then Some (Scanf.to_uint (Scanf.strtoul neg v'), rest')
             else None)
            = Some (v, rest) →
            (String.length rest < String.length s)%nat).
  { intros neg s1 Hs1.
    destruct (Scanf.scan_digits s1 0 false) as [[v' any] rest'] eqn:E.
    destruct any; [|done]. intros H. injection H as _ <-.
    apply scan_digits_length in E as [_ E]. specialize (E eq_refl eq_refl). lia. }
  destruct (Ascii.eqb c "-"%char) eqn:Em; [apply Ascii.eqb_eq in Em; subst c|].
  { apply (Hsign true s0). simpl. lia. }
  destruct (Ascii.eqb c "+"%char) eqn:Ep; [apply Ascii.eqb_eq in Ep; subst c|].
  { apply (Hsign false s0). simpl. lia. }
  assert (Hm : match String c s0 with
               | String "-"%char r => (true, r)
               | String "+"%char r => (false, r)
               | _ => (false, String c s0)
               end = (false, String c s0)).
  { apply Ascii.eqb_neq in Em, Ep.
    destruct c as [[] [] [] [] [] [] [] []]; try reflexivity; congruence. }
  rewrite Hm. apply (Hsign false (String c s0)). done.
Qed.

Lemma scan_lit_length c s rest :
  Scanf.scan_lit c s = Some rest → String.length s = S (String.length rest).
Proof.
  destruct s as [|c' s]; simpl; [done|].
  destruct (Ascii.eqb c c'); [|done]. intros H. by injection H as <-.
Qed.

Lemma sscanf_ConvU fmt s :
  Scanf.sscanf (Scanf.ConvU :: fmt) s
  = match Scanf.scan_u s with
    | Some (v, rest) => v :: Scanf.sscanf fmt rest
    | None => []
    end.
Proof. reflexivity. Qed.

Lemma sscanf_Lit c fmt s :
  Scanf.sscanf (Scanf.Lit c :: fmt) s
  = match Scanf.scan_lit c s with
    | Some rest => Scanf.sscanf fmt rest
    | None => []
    end.
Proof. reflexivity. Qed.

Lemma conv_count_last fmt :
  last fmt = Some Scanf.ConvU → (1 ≤ conv_count fmt)%nat.
Proof.
  induction fmt as [|x l IH]; [done|]. destruct l as [|y l].
  - simpl. intros H. injection H as ->. simpl. lia.
  - intros H. specialize (IH H).
    destruct x; [change (conv_count (Scanf.ConvU :: y :: l)) with (S (conv_count (y :: l)))
                | change (conv_count (Scanf.Lit c :: y :: l)) with (conv_count (y :: l))]; lia.
Qed.

(** Every directive that succeeds takes at least one character. *)
Lemma sscanf_needs_text fmt : ∀ s,
  last fmt = Some Scanf.ConvU →
  length (Scanf.sscanf fmt s) = conv_count fmt →
  (length fmt ≤ String.length s)%nat.
Proof.
  induction fmt as [|d fmt IH]; intros s Hlast Hall; [done|].
  destruct fmt as [|d' fmt'].
  - simpl in Hlast. injection Hlast as ->. simpl in *.
    destruct (Scanf.scan_u s) as [[v rest]|] eqn:E; [|done].
    apply scan_u_length in E. lia.
  - assert (Hlast' : last (d' :: fmt') = Some Scanf.ConvU) by exact Hlast.
    pose proof (conv_count_last _ Hlast') as Hpos.
    revert IH Hall Hpos Hlast'. generalize (d' :: fmt'). intros fmt IH Hall Hpos Hlast'.
    destruct d as [|c].
    + rewrite sscanf_ConvU in Hall.
      change (conv_count (Scanf.ConvU :: fmt)) with (S (conv_count fmt)) in Hall.
      destruct (Scanf.scan_u s) as [[v rest]|] eqn:E; [|cbn [length] in Hall; lia].
      cbn [length] in Hall. apply Nat.succ_inj in Hall. apply scan_u_length in E.
      specialize (IH rest Hlast' Hall). cbn [length] in *. lia.
    + rewrite sscanf_Lit in Hall.
      change (conv_count (Scanf.Lit c :: fmt)) with (conv_count fmt) in Hall.
      destruct (Scanf.scan_lit c s) as [rest|] eqn:E; [|cbn [length] in Hall; lia].
      apply scan_lit_length in E.
      specialize (IH rest Hlast' Hall). cbn [length] in *. lia.
Qed.

(** X3: [fill] rejects every line of fewer than nine characters, the empty
    line among them: it returns -1. *)
Theorem fill_rejects_short_line (this : player_color_line) (line : string) :
  (String.length line < 9)%nat → (fill this line).1 = -1.
Proof.
  intros Hshort. unfold fill.
  destruct (Z.of_nat (length (Scanf.sscanf Scanf.color_line_format line)) =? 5) eqn:E;
    [|done].
  apply Z.eqb_eq in E. exfalso.
  pose proof (sscanf_needs_text Scanf.color_line_format line eq_refl) as H.
  change (conv_count Scanf.color_line_format) with 5%nat in H.
  change (length Scanf.color_line_format) with 9%nat in H.
  specialize (H ltac:(lia)). lia.
Qed.

Lemma skip_space_app ws s :
  all_space ws = true → Scanf.skip_space (ws +:+ s) = Scanf.skip_space s.
Proof.
  induction ws as [|c ws IH]; intros Hws; [done|].
  cbn [all_space] in Hws. apply andb_true_iff in Hws as [Hc Hws].
  change (String c ws +:+ s) with (String c (ws +:+ s)).
  cbn [Scanf.skip_space]. rewrite Hc. by apply IH.
Qed.

(** X13: white space in front of a palette line makes no difference to
    [fill]: the result and the record are those of the line without it. *)
Theorem fill_skips_leading_space (this : player_color_line) (ws line : string) :
  all_space ws = true → fill this (ws +:+ line) = fill this line.
Proof.
  intros Hws. unfold fill.
  assert (Hscan : Scanf.sscanf Scanf.color_line_format (ws +:+ line)
                  = Scanf.sscanf Scanf.color_line_format line).
  { unfold Scanf.color_line_format. rewrite !sscanf_ConvU.
    unfold Scanf.scan_u. by rewrite (skip_space_app ws line Hws). }
  by rewrite Hscan.
Qed.

End Parsing.

(* ===================================================================== *)
(** * The staging array of the conversion loop                           *)
(* ===================================================================== *)

Section Staging.

(** X4: the conversion loop writes every float of the array it allocated:
    the array has four floats per loaded entry and none of them is left
    indeterminate, whatever was loaded. *)
Theorem playercolors_fully_written (pcs : list player_color_line) :
  length (convert_playercolors pcs (length pcs)) = (length pcs * 4)%nat
  ∧ Forall is_Some (convert_playercolors pcs (length pcs)).
Proof.
  split; [apply length_convert_playercolors|].
  apply Forall_lookup. intros k cell Hk.
  assert (Hlt : (k < length pcs * 4)%nat).
  { apply lookup_lt_Some in Hk. by rewrite length_convert_playercolors in Hk. }
  assert (Hi : (k `div` 4 < length pcs)%nat) by (apply Nat.Div0.div_lt_upper_bound; lia).
  destruct (lookup_lt_is_Some_2 pcs (k `div` 4) Hi) as [e He].
  destruct (convert_playercolors_holds pcs _ e He) as (H0 & H1 & H2 & H3).
  pose proof (Nat.div_mod_eq k 4) as Hdm.
  pose proof (Nat.mod_upper_bound k 4 ltac:(lia)) as Hm.
  assert (Hcase : k = (k `div` 4 * 4)%nat ∨ k = (k `div` 4 * 4 + 1)%nat
                  ∨ k = (k `div` 4 * 4 + 2)%nat ∨ k = (k `div` 4 * 4 + 3)%nat) by lia.
  destruct Hcase as [Hc|[Hc|[Hc|Hc]]]; rewrite Hc in Hk.
  - rewrite H0 in Hk. injection Hk as <-. by eexists.
  - rewrite H1 in Hk. injection Hk as <-. by eexists.
  - rewrite H2 in Hk. injection Hk as <-. by eexists.
  - rewrite H3 in Hk. injection Hk as <-. by eexists.
Qed.

Lemma store_color_with_idx (renumber : player_color_line → Z) pcs buf i :
  store_color (map (λ e, with_idx (renumber e) e) pcs) buf i = store_color pcs buf i.
Proof.
  unfold store_color. rewrite list_lookup_fmap. by destruct (pcs !! i).
Qed.

(** X5: the conversion never reads the index field: giving the loaded
    entries any other indices leaves the converted table as it is. *)
Theorem conversion_ignores_index (renumber : player_color_line → Z)
    (pcs : list player_color_line) :
  let pcs' := map (λ e, with_idx (renumber e) e) pcs in
  convert_playercolors pcs' (length pcs') = convert_playercolors pcs (length pcs).
Proof.
  intros pcs'. unfold pcs', convert_playercolors. rewrite length_map.
  generalize (replicate (length pcs * 4) (@None spec_float)).
  generalize (seq 0 (length pcs)). intros ixs.
  induction ixs as [|i ixs IH]; intros buf; simpl; [done|].
  by rewrite store_color_with_idx, IH.
Qed.

End Staging.

(* ===================================================================== *)
(** * Runs of [init] that stop early                                     *)
(* ===================================================================== *)

Section EarlyStop.

#[local] Instance valid_id_dec T pos : Decision (valid_id T pos).
Proof. unfold valid_id. apply _. Defined.

Lemma init_tiles_foreach T st :
  terrain st = Some T → terrain_size T = 20 →
  init_tiles st
  = foreach (grid_cells 20)
      (λ pos, Terrain_set_tile pos (terrain_data_at (ne pos) (se pos))) st.
Proof.
  intros HT Hsz. unfold init_tiles, Terrain_get_size, get_terrain.
  unfold mbind at 1 2, M_bind. rewrite HT. unfold mret, M_ret, get_size. rewrite Hsz.
  unfold for_upto, grid_cells. rewrite foreach_nested. apply foreach_ext.
  intros i st'. by rewrite foreach_singletons.
Qed.

Lemma Terrain_set_tile_invalid T pos id st :
  terrain st = Some T → ¬ (0 ≤ id < terrain_type_count T) →
  Terrain_set_tile pos id st = (inl InvalidTerrainId, st_emit [SetTile pos id] st).
Proof.
  intros HT Hid.
  assert (Hset : set_tile T pos id = inl InvalidTerrainId).
  { unfold set_tile. destruct (0 <=? id) eqn:H0; [|done].
    destruct (id <? terrain_type_count T) eqn:H1; [|done].
    apply Z.leb_le in H0. apply Z.ltb_lt in H1. lia. }
  unfold Terrain_set_tile, get_terrain, lift_result, put_terrain, emit.
  unfold mbind, M_bind. cbn [terrain st_emit]. by rewrite HT, Hset.
Qed.

Lemma first_invalid T (cells : list tile) :
  ¬ Forall (valid_id T) cells →
  ∃ good bad rest,
    cells = good ++ bad :: rest ∧ Forall (valid_id T) good ∧ ¬ valid_id T bad.
Proof.
  induction cells as [|pos cells IH]; intros Hnot.
  - destruct Hnot. constructor.
  - destruct (decide (valid_id T pos)) as [Hpos|Hpos].
    + destruct IH as (good & bad & rest & -> & Hgood & Hbad).
      { intros Hall. apply Hnot. by constructor. }
      exists (pos :: good), bad, rest. repeat split; [by constructor | done].
    + exists [], pos, cells. repeat split; [constructor | done].
Qed.

Lemma set_tiles_stop T good bad rest st :
  terrain st = Some T → Forall (valid_id T) good → ¬ valid_id T bad →
  foreach (good ++ bad :: rest)
    (λ pos, Terrain_set_tile pos (terrain_data_at (ne pos) (se pos))) st
  = (inl InvalidTerrainId,
     st_terrain (with_tiles (set_tiles good (tiles T)) T)
       (st_emit (map (λ pos, SetTile pos (terrain_data_at (ne pos) (se pos)))
                     (good ++ [bad])) st)).
Proof.
  intros HT Hgood Hbad. rewrite foreach_app.
  rewrite (bind_ok _ _ _ _ _ (set_tiles_run good T st HT Hgood)).
  cbn [foreach].
  erewrite bind_err; last first.
  { apply Terrain_set_tile_invalid
      with (T := with_tiles (set_tiles good (tiles T)) T); [reflexivity | exact Hbad]. }
  f_equal. rewrite map_app. unfold st_terrain, st_emit.
  cbn [trace terrain blend_mode_count terrain_texture_count map].
  by rewrite <- app_assoc.
Qed.

(** X6: when the two terrain tables load but the terrain table has twenty
    types or fewer, [init] stops with [InvalidTerrainId] at the first cell,
    in row-major order, whose id of [terrain_data] the table does not have.
    The cells before it are set, the grid stays partly filled, and nothing
    later happens: the palette is not read, no shader is made and no
    callback is registered. *)
Theorem init_stops_at_unknown_terrain_id w tts bms st :
  terrain_meta w = inr tts → blending_meta w = inr bms →
  (length tts ≤ 20)%nat →
  ∃ good bad rest st' T,
    run (init w) st = (inl InvalidTerrainId, st')
    ∧ grid_cells 20 = good ++ bad :: rest
    ∧ Forall (λ pos, 0 ≤ terrain_data_at (ne pos) (se pos) < Z.of_nat (length tts)) good
    ∧ ¬ (0 ≤ terrain_data_at (ne bad) (se bad) < Z.of_nat (length tts))
    ∧ events_of (init w) st
      = load_events (Z.of_nat (length tts)) (Z.of_nat (length bms))
        ++ map (λ pos, SetTile pos (terrain_data_at (ne pos) (se pos))) (good ++ [bad])
    ∧ terrain st' = Some T
    ∧ tiles T = set_tiles good ∅.
Proof.
  intros Ht Hb Hfew.
  set (T0 := new_Terrain 20 (Z.of_nat (length tts)) tts (Z.of_nat (length bms)) bms).
  assert (Hnot : ¬ Forall (valid_id T0) (grid_cells 20)).
  { intros Hall. rewrite Forall_forall in Hall.
    specialize (Hall {| ne := 5; se := 2 |} ltac:(apply elem_of_grid_cells; lia)).
    unfold valid_id in Hall. cbn [ne se terrain_type_count T0 new_Terrain] in Hall.
    change (terrain_data_at 5 2) with 20 in Hall. lia. }
  destruct (first_invalid T0 _ Hnot) as (good & bad & rest & Hcells & Hgood & Hbad).
  assert (Hrun : run (init w) st
    = (inl InvalidTerrainId,
       st_terrain (with_tiles (set_tiles good ∅) T0)
         (st_emit (load_events (Z.of_nat (length tts)) (Z.of_nat (length bms))
                   ++ map (λ pos, SetTile pos (terrain_data_at (ne pos) (se pos)))
                          (good ++ [bad])) st))).
  { unfold run, init.
    rewrite (bind_ok _ _ _ _ _ (init_load_run w tts bms st Ht Hb)).
    erewrite bind_err; last first.
    { rewrite (init_tiles_foreach T0) by reflexivity.
      rewrite Hcells. by apply set_tiles_stop. }
    f_equal. unfold st_terrain, st_emit.
    cbn [trace terrain blend_mode_count terrain_texture_count].
    by rewrite <- app_assoc. }
  eexists good, bad, rest, _, _. split; [exact Hrun|].
  split; [exact Hcells|]. split; [exact Hgood|]. split; [exact Hbad|].
  split; [by eapply events_of_emit; [exact Hrun|]|].
  split; reflexivity.
Qed.

Lemma read_csv_file_rejects `{csv_line_data T} (lines : list string) (line : string) :
  line ∈ lines → (csv_fill csv_new line).1 ≠ 0 →
  read_csv_file (T := T) lines = inl MalformedLine.
Proof.
  intros Hin Hbad. induction lines as [|l lines IH]; [by apply elem_of_nil in Hin|].
  simpl. destruct (csv_fill csv_new l) as [rc rec] eqn:E.
  destruct (rc =? 0) eqn:Erc; [|done].
  apply elem_of_cons in Hin as [->|Hin].
  - rewrite E in Hbad. apply Z.eqb_eq in Erc. simpl in Hbad. congruence.
  - by rewrite (IH Hin).
Qed.

(** X7: when the tables load and the grid is built, but [fill] rejects some
    line of the palette, [init] stops there with the loader's failure: the
    terrain is complete, and neither the float array nor any shader,
    program or callback has been made. *)
Theorem init_stops_at_rejected_palette_line w tts bms (line : string) st :
  terrain_meta w = inr tts → blending_meta w = inr bms →
  (20 < length tts)%nat →
  line ∈ player_color_palette w → (fill blank_line line).1 ≠ 0 →
  ∃ st',
    run (init w) st = (inl MalformedLine, st')
    ∧ events_of (init w) st
      = load_events (Z.of_nat (length tts)) (Z.of_nat (length bms))
        ++ tile_events ++ [ReadCsvFile "age/processed/player_color_palette.pal"]
    ∧ terrain st' = Some (terrain_after_init tts bms).
Proof.
  intros Ht Hb Hc Hin Hbad.
  change ((csv_fill (T := player_color_line) csv_new line).1 ≠ 0) in Hbad.
  assert (Hrun : run (init w) st
    = (inl MalformedLine,
       st_terrain (terrain_after_init tts bms)
         (st_emit (load_events (Z.of_nat (length tts)) (Z.of_nat (length bms))
                   ++ tile_events
                   ++ [ReadCsvFile "age/processed/player_color_palette.pal"]) st))).
  { unfold run, init.
    rewrite (bind_ok _ _ _ _ _ (init_load_run w tts bms st Ht Hb)).
    erewrite bind_ok; last first.
    { apply init_tiles_run with (T := new_Terrain 20 (Z.of_nat (length tts)) tts
                                        (Z.of_nat (length bms)) bms);
        [reflexivity | reflexivity | cbn [terrain_type_count new_Terrain]; lia]. }
    erewrite bind_err; last first.
    { unfold init_player_colors, lift_result, mbind, M_bind, emit.
      rewrite (read_csv_file_rejects (T := player_color_line) _ line Hin Hbad).
      reflexivity. }
    f_equal. unfold st_terrain, st_emit, terrain_after_init.
    cbn [trace terrain blend_mode_count terrain_texture_count].
    by rewrite <- !app_assoc. }
  eexists. split; [exact Hrun|].
  split; [by eapply events_of_emit; [exact Hrun|]|]. reflexivity.
Qed.

End EarlyStop.

(* ===================================================================== *)
(** * What is created and what is released                               *)
(* ===================================================================== *)

Section Lifetimes.

Lemma heap_run_app h evs1 evs2 :
  heap_run h (evs1 ++ evs2) = heap_run (heap_run h evs1) evs2.
Proof. apply foldl_app. Qed.

Lemma heap_run_entries arr (l : list Z) : ∀ h,
  (∀ i, RArrayEntry arr i ∉ heap_live h) →
  heap_run h (map (DeleteArrayEntry arr) l)
  = {| heap_live := heap_live h;
       heap_stray := heap_stray h ++ map (RArrayEntry arr) l |}.
Proof.
  induction l as [|i l IH]; intros h Hh.
  - simpl. rewrite app_nil_r. by destruct h.
  - change (heap_run h (map (DeleteArrayEntry arr) (i :: l)))
      with (heap_run (heap_step h (DeleteArrayEntry arr i)) (map (DeleteArrayEntry arr) l)).
    unfold heap_step. cbn [creates deletes].
    destruct (decide (RArrayEntry arr i ∈ heap_live h)) as [Hin|_]; [by apply Hh in Hin|].
    rewrite IH by exact Hh. cbn [heap_live heap_stray map].
    by rewrite <- app_assoc.
Qed.

Lemma heap_run_strays (evs : list event) : ∀ (xs : list resource) h,
  Forall2 (λ e x, creates e = None ∧ deletes e = Some x) evs xs →
  Forall (λ x, x ∉ heap_live h) xs →
  heap_run h evs
  = {| heap_live := heap_live h; heap_stray := heap_stray h ++ xs |}.
Proof.
  induction evs as [|e evs IH]; intros xs h Hall Hnot.
  - inversion Hall; subst. rewrite app_nil_r. by destruct h.
  - inversion Hall as [|? x ? xs' [Hcr Hdel] Hrest]; subst.
    inversion Hnot as [|? ? Hx Hxs]; subst.
    change (heap_run h (e :: evs)) with (heap_run (heap_step h e) evs).
    unfold heap_step. rewrite Hcr, Hdel.
    destruct (decide (x ∈ heap_live h)) as [Hin|_]; [done|].
    rewrite (IH xs') by done. cbn [heap_live heap_stray].
    by rewrite <- app_assoc.
Qed.

Lemma events_of_seq (m1 m2 : M unit) st st1 st2 evs1 evs2 :
  m1 st = (inr tt, st1) → trace st1 = trace st ++ evs1 →
  m2 st1 = (inr tt, st2) → trace st2 = trace st1 ++ evs2 →
  events_of (m1 ;; m2) st = evs1 ++ evs2.
Proof.
  intros H1 Ht1 H2 Ht2. unfold events_of.
  rewrite (bind_ok _ _ _ _ _ H1), H2. cbn [snd].
  by rewrite Ht2, Ht1, <- app_assoc, drop_app_length.
Qed.

Lemma heap_after_destroy (live : list resource) (stray : list resource) n_terrain n_blend :
  (∀ arr i, RArrayEntry arr i ∉ live) →
  heap_run {| heap_live := live; heap_stray := stray |}
    (map (DeleteArrayEntry terrain_textures) (seqZ 0 n_terrain)
     ++ map (DeleteArrayEntry blending_textures) (seqZ 0 n_blend)
     ++ [DeleteTerrainPriorityList])
  = {| heap_live := remove_one RPriorityList live;
       heap_stray :=
         if decide (RPriorityList ∈ live) then
           stray ++ map (RArrayEntry terrain_textures) (seqZ 0 n_terrain)
           ++ map (RArrayEntry blending_textures) (seqZ 0 n_blend)
         else
           stray ++ map (RArrayEntry terrain_textures) (seqZ 0 n_terrain)
           ++ map (RArrayEntry blending_textures) (seqZ 0 n_blend)
           ++ [RPriorityList] |}.
Proof.
  intros Hlive. rewrite heap_run_app.
  rewrite (heap_run_entries terrain_textures _ {| heap_live := live; heap_stray := stray |})
    by (intros i; apply Hlive).
  cbn [heap_live heap_stray]. rewrite heap_run_app.
  rewrite (heap_run_entries blending_textures) by (intros i; apply Hlive).
  cbn [heap_live heap_stray]. unfold heap_run. cbn [foldl]. unfold heap_step.
  cbn [creates deletes heap_live heap_stray].
  destruct (decide (RPriorityList ∈ live)) as [Hin|Hnot].
  - by rewrite <- !app_assoc.
  - assert (Hsame : remove_one RPriorityList live = live).
    { clear -Hnot. revert Hnot. induction live as [|x live IH]; intros Hnot; [done|].
      apply not_elem_of_cons in Hnot as [Hne Hnot]. cbn [remove_one].
      destruct (decide (RPriorityList = x)) as [Heq|_]; [done|]. by rewrite (IH Hnot). }
    by rewrite Hsame, <- !app_assoc.
Qed.

(** The files load, and the terrain table has the types that the grid
    needs. *)
Context (w : World) (tts : list TerrainType) (bms : list BlendingMode)
        (pcs : list player_color_line) (st : State).
Hypothesis Hl : loads w tts bms pcs.
Hypothesis Hc : (20 < length tts)%nat.

Lemma init_destroy_events :
  events_of (init w ;; destroy) st
  = init_events (Z.of_nat (length tts)) (Z.of_nat (length bms)) pcs
    ++ destroy_events (terrain_texture_count st) (blend_mode_count st).
Proof.
  eapply events_of_seq;
    [apply (init_run _ _ _ _ _ Hl Hc) | reflexivity | apply destroy_run | reflexivity].
Qed.

Lemma heap_after_init :
  heap_run empty_heap (init_events (Z.of_nat (length tts)) (Z.of_nat (length bms)) pcs)
  = {| heap_live :=
         [ RProgram alphamask_shader; RProgram teamcolor_shader;
           RProgram texture_shader;
           RTable "age/processed/player_color_palette.pal"; RTerrain;
           RTable "age/processed/blending_meta.docx";
           RTable "age/processed/terrain_meta.docx";
           RTexture university; RTexture gaben ];
       heap_stray := [] |}.
Proof.
  unfold init_events, palette_events.
  generalize (convert_playercolors pcs (length pcs)).
  generalize (length pcs * 4)%nat.
  generalize (Z.of_nat (length tts)). generalize (Z.of_nat (length bms)).
  intros. vm_compute. reflexivity.
Qed.

(** X8: a complete run of [init] releases, itself and exactly once, every
    temporary it creates: the five shader source texts, the five shader
    objects and the float array; it deletes nothing that it did not create.
    What exists when it returns is the two textures, the three loaded
    tables, the terrain and the three programs. *)
Theorem init_releases_its_temporaries :
  heap_run empty_heap (events_of (init w) st)
  = {| heap_live :=
         [ RProgram alphamask_shader; RProgram teamcolor_shader;
           RProgram texture_shader;
           RTable "age/processed/player_color_palette.pal"; RTerrain;
           RTable "age/processed/blending_meta.docx";
           RTable "age/processed/terrain_meta.docx";
           RTexture university; RTexture gaben ];
       heap_stray := [] |}.
Proof. rewrite (init_events_of _ _ _ _ _ Hl Hc). apply heap_after_init. Qed.

Lemma heap_after_init_destroy :
  heap_run empty_heap
    (init_events (Z.of_nat (length tts)) (Z.of_nat (length bms)) pcs
     ++ destroy_events (terrain_texture_count st) (blend_mode_count st))
  = {| heap_live :=
         [ RTable "age/processed/player_color_palette.pal"; RTerrain;
           RTable "age/processed/blending_meta.docx";
           RTable "age/processed/terrain_meta.docx" ];
       heap_stray :=
         map (RArrayEntry terrain_textures) (seqZ 0 (terrain_texture_count st))
         ++ map (RArrayEntry blending_textures) (seqZ 0 (blend_mode_count st))
         ++ [RPriorityList] |}.
Proof.
  rewrite heap_run_app, heap_after_init.
  unfold destroy_events. rewrite heap_run_app.
  set (h := heap_run _ [DeleteTexture gaben; _; _; _; _]).
  assert (Hh : h = {| heap_live :=
                        [ RTable "age/processed/player_color_palette.pal"; RTerrain;
                          RTable "age/processed/blending_meta.docx";
                          RTable "age/processed/terrain_meta.docx" ];
                      heap_stray := [] |}) by (vm_compute; reflexivity).
  rewrite Hh, heap_after_destroy.
  - f_equal.
  - intros arr i Hin. in_cases Hin; discriminate Hin.
Qed.

(** X9: [init] followed by [destroy].  Of what [init] created, the terrain
    and the three tables that [read_csv_file] loaded are never deleted.
    What [destroy] deletes beyond the textures and programs -- the entries of
    [terrain_textures] and [blending_textures] and the priority list --
    none of the calls of [init] has created. *)
Theorem init_destroy_balance :
  heap_run empty_heap (events_of (init w ;; destroy) st)
  = {| heap_live :=
         [ RTable "age/processed/player_color_palette.pal"; RTerrain;
           RTable "age/processed/blending_meta.docx";
           RTable "age/processed/terrain_meta.docx" ];
       heap_stray :=
         map (RArrayEntry terrain_textures) (seqZ 0 (terrain_texture_count st))
         ++ map (RArrayEntry blending_textures) (seqZ 0 (blend_mode_count st))
         ++ [RPriorityList] |}.
Proof. rewrite init_destroy_events. apply heap_after_init_destroy. Qed.

(** X10: [destroy] has no guard and leaves its pointers as they are.  Its
    first call is [delete gaben] whatever the state, and once [init] and
    [destroy] have run that texture is no longer among the objects that
    exist: a second [destroy] starts by deleting an object that has already
    been deleted.  (What the program does from that call on is undefined;
    nothing is said about it.) *)
Theorem destroy_again_deletes_released_texture :
  let h := heap_run empty_heap (events_of (init w ;; destroy) st) in
  (∀ st', head (events_of destroy st') = Some (DeleteTexture gaben))
  ∧ (RTexture gaben ∉ heap_live h)
  ∧ heap_stray (heap_step h (DeleteTexture gaben)) = heap_stray h ++ [RTexture gaben].
Proof.
  intros h. split; [intros st'; by rewrite destroy_events_of|].
  unfold h. rewrite init_destroy_events, heap_after_init_destroy.
  set (stray := map (RArrayEntry terrain_textures) _ ++ _). clearbody stray.
  assert (Hout : RTexture gaben
                 ∉ [ RTable "age/processed/player_color_palette.pal"; RTerrain;
                     RTable "age/processed/blending_meta.docx";
                     RTable "age/processed/terrain_meta.docx" ]).
  { intros Hin. in_cases Hin; discriminate Hin. }
  split; [exact Hout|].
  unfold heap_step. cbn [creates deletes heap_live heap_stray].
  destruct (decide _) as [Hin|_]; [by destruct (Hout Hin) | reflexivity].
Qed.

(** X11: a second [init] does everything again: the calls of the first run
    are repeated, so every handler is registered a second time, and the
    textures, tables, terrain and programs of the first run are still
    there, none of them released. *)
Theorem init_twice_repeats :
  let evs := init_events (Z.of_nat (length tts)) (Z.of_nat (length bms)) pcs in
  events_of (init w ;; init w) st = evs ++ evs
  ∧ omap (λ e, match e with PushBack l h => Some (l, h) | _ => None end)
         (events_of (init w ;; init w) st)
    = [ (on_input, input_handler); (on_engine_tick_list, on_engine_tick);
        (on_drawgame, draw_method); (on_drawhud, hud_draw_method);
        (on_input, input_handler); (on_engine_tick_list, on_engine_tick);
        (on_drawgame, draw_method); (on_drawhud, hud_draw_method) ]
  ∧ heap_run empty_heap (events_of (init w ;; init w) st)
    = {| heap_live :=
           heap_live (heap_run empty_heap evs) ++ heap_live (heap_run empty_heap evs);
         heap_stray := [] |}.
Proof.
  intros evs.
  assert (Hev : events_of (init w ;; init w) st = evs ++ evs).
  { eapply events_of_seq;
      [apply (init_run _ _ _ _ _ Hl Hc) | reflexivity
      | apply (init_run _ _ _ _ _ Hl Hc) | reflexivity]. }
  split; [exact Hev|]. rewrite Hev. unfold evs. split.
  - rewrite omap_app. unfold init_events, palette_events.
    generalize (convert_playercolors pcs (length pcs)).
    generalize (length pcs * 4)%nat.
    generalize (Z.of_nat (length tts)). generalize (Z.of_nat (length bms)).
    intros. vm_compute. reflexivity.
  - rewrite heap_run_app, heap_after_init. unfold init_events, palette_events.
    generalize (convert_playercolors pcs (length pcs)).
    generalize (length pcs * 4)%nat.
    generalize (Z.of_nat (length tts)). generalize (Z.of_nat (length bms)).
    intros. vm_compute. reflexivity.
Qed.

(* ===================================================================== *)
(** * The order of the OpenGL calls                                      *)
(* ===================================================================== *)

Lemma gl_run_app s evs1 evs2 :
  gl_run s (evs1 ++ evs2) = (s' ← gl_run s evs1; gl_run s' evs2).
Proof.
  unfold gl_run. rewrite foldl_app.
  destruct (foldl _ (Some s) evs1) as [s'|]; [done|].
  simpl. induction evs2 as [|e evs2 IH]; [done | exact IH].
Qed.

Lemma gl_run_entries arr (l : list Z) s :
  gl_run s (map (DeleteArrayEntry arr) l) = Some s.
Proof. unfold gl_run. induction l as [|i l IH]; [done | exact IH]. Qed.

(** X12: the calls of a complete run of [init] come in an order that OpenGL
    accepts: a program is made from two existing shader objects of the
    right stages, is linked while both still exist, is looked up in and
    used only once linked; a use never starts inside another; every upload
    goes through a uniform handle that was looked up before, of the program
    in use; a shader object is deleted only when the programs made from it
    are linked.  At the end no shader object is left, the three programs are
    linked and none is in use.  [destroy], run next, deletes each of the
    three programs once and leaves none. *)
Theorem gl_calls_in_order :
  gl_run gl_empty (events_of (init w) st)
  = Some {| gl_shaders := [];
            gl_programs :=
              [ (alphamask_shader, (alphamask_vert, alphamask_frag));
                (teamcolor_shader, (plaintexture_vert, teamcolor_frag));
                (texture_shader, (plaintexture_vert, plaintexture_frag)) ];
            gl_linked := [alphamask_shader; teamcolor_shader; texture_shader];
            gl_resolved :=
              [ UniformLoc alphamask_shader "mask_texture";
                UniformLoc alphamask_shader "base_texture";
                UniformLoc alphamask_shader "show_mask";
                AttributeLoc alphamask_shader "mask_tex_coordinates";
                AttributeLoc alphamask_shader "base_tex_coordinates";
                UniformLoc teamcolor_shader "player_color";
                UniformLoc teamcolor_shader "alpha_marker";
                UniformLoc teamcolor_shader "player_number";
                AttributeLoc teamcolor_shader "tex_coordinates";
                UniformLoc teamcolor_shader "texture";
                AttributeLoc texture_shader "tex_coordinates";
                UniformLoc texture_shader "texture" ];
            gl_active := None |}
  ∧ gl_run gl_empty (events_of (init w ;; destroy) st) = Some gl_empty.
Proof.
  assert (Hinit : gl_run gl_empty
                    (init_events (Z.of_nat (length tts)) (Z.of_nat (length bms)) pcs)
    = Some {| gl_shaders := [];
            gl_programs :=
              [ (alphamask_shader, (alphamask_vert, alphamask_frag));
                (teamcolor_shader, (plaintexture_vert, teamcolor_frag));
                (texture_shader, (plaintexture_vert, plaintexture_frag)) ];
            gl_linked := [alphamask_shader; teamcolor_shader; texture_shader];
            gl_resolved :=
              [ UniformLoc alphamask_shader "mask_texture";
                UniformLoc alphamask_shader "base_texture";
                UniformLoc alphamask_shader "show_mask";
                AttributeLoc alphamask_shader "mask_tex_coordinates";
                AttributeLoc alphamask_shader "base_tex_coordinates";
                UniformLoc teamcolor_shader "player_color";
                UniformLoc teamcolor_shader "alpha_marker";
                UniformLoc teamcolor_shader "player_number";
                AttributeLoc teamcolor_shader "tex_coordinates";
                UniformLoc teamcolor_shader "texture";
                AttributeLoc texture_shader "tex_coordinates";
                UniformLoc texture_shader "texture" ];
            gl_active := None |}).
  { unfold init_events, palette_events.
    generalize (convert_playercolors pcs (length pcs)).
    generalize (length pcs * 4)%nat.
    generalize (Z.of_nat (length tts)). generalize (Z.of_nat (length bms)).
    intros. vm_compute. reflexivity. }
  split; [by rewrite (init_events_of _ _ _ _ _ Hl Hc)|].
  rewrite init_destroy_events, gl_run_app, Hinit. cbn [mbind option_bind].
  unfold destroy_events. rewrite gl_run_app.
  set (five := [DeleteTexture gaben; _; _; _; _]).
  match goal with
  | |- context [gl_run ?s five] =>
      assert (Hfive : gl_run s five = Some gl_empty) by (vm_compute; reflexivity)
  end.
  rewrite Hfive. cbn [mbind option_bind].
  rewrite gl_run_app, gl_run_entries. cbn [mbind option_bind].
  rewrite gl_run_app, gl_run_entries. reflexivity.
Qed.

End Lifetimes.

(* ===================================================================== *)
(** * The further theorems at the sample files                           *)
(* ===================================================================== *)

Lemma fill_reads_palette_line_witness :
  uint_fields {| idx := 5; r := 10; g := 20; b := 30; a := 4294967295 |}
  ∧ no_digit_ahead " # blue"
  ∧ fill blank_line
      (palette_line {| idx := 5; r := 10; g := 20; b := 30; a := 4294967295 |}
       +:+ " # blue")
    = (0, {| idx := 5; r := 10; g := 20; b := 30; a := 4294967295 |}).
Proof.
  assert (He : uint_fields {| idx := 5; r := 10; g := 20; b := 30; a := 4294967295 |})
    by (unfold uint_fields, is_uint; simpl; lia).
  assert (Hrest : no_digit_ahead " # blue") by reflexivity.
  split; [exact He|]. split; [exact Hrest|].
  exact (fill_reads_palette_line blank_line _ _ He Hrest).
Defined.

Lemma fill_wraps_negative_index_witness :
  uint_fields {| idx := 1; r := 255; g := 0; b := 0; a := 255 |}
  ∧ 1 ≤ idx {| idx := 1; r := 255; g := 0; b := 0; a := 255 |}
  ∧ no_digit_ahead ""
  ∧ fill blank_line "-1=255,0,0,255"
    = (0, {| idx := 4294967295; r := 255; g := 0; b := 0; a := 255 |}).
Proof.
  assert (He : uint_fields {| idx := 1; r := 255; g := 0; b := 0; a := 255 |}).
  { unfold uint_fields, is_uint. cbn. lia. }
  assert (Hpos : 1 ≤ idx {| idx := 1; r := 255; g := 0; b := 0; a := 255 |})
    by (cbn; lia).
  split; [exact He|]. split; [exact Hpos|]. split; [exact I|].
  exact (fill_wraps_negative_index blank_line _ "" He Hpos I).
Defined.

Lemma fill_rejects_short_line_witness :
  (String.length "7=1,2,3" < 9)%nat ∧ (fill blank_line "7=1,2,3").1 = -1.
Proof.
  assert (Hshort : (String.length "7=1,2,3" < 9)%nat) by (vm_compute; lia).
  split; [exact Hshort|]. exact (fill_rejects_short_line blank_line _ Hshort).
Defined.

Lemma fill_skips_leading_space_witness :
  all_space "   " = true
  ∧ fill blank_line ("   " +:+ "5=10,20,30,255") = fill blank_line "5=10,20,30,255".
Proof.
  assert (Hws : all_space "   " = true) by reflexivity.
  split; [exact Hws|]. exact (fill_skips_leading_space blank_line _ _ Hws).
Defined.

Lemma init_stops_at_unknown_terrain_id_witness :
  terrain_meta sample_world_few = inr (take 8 sample_terrain_types)
  ∧ blending_meta sample_world_few = inr (sample_blending_modes 9)
  ∧ (length (take 8 sample_terrain_types) ≤ 20)%nat
  ∧ (run (init sample_world_few) (initial_state 0)).1 = inl InvalidTerrainId.
Proof.
  assert (Hfew : (length (take 8 sample_terrain_types) ≤ 20)%nat) by (vm_compute; lia).
  destruct (init_stops_at_unknown_terrain_id sample_world_few
              (take 8 sample_terrain_types) (sample_blending_modes 9)
              (initial_state 0) eq_refl eq_refl Hfew)
    as (good & bad & rest & st' & T & Hrun & _).
  split; [reflexivity|]. split; [reflexivity|]. split; [exact Hfew|].
  by rewrite Hrun.
Defined.

Lemma init_stops_at_rejected_palette_line_witness :
  terrain_meta (sample_world 9 ["0=1,2,3,4"; "7=1,2,3"]) = inr sample_terrain_types
  ∧ blending_meta (sample_world 9 ["0=1,2,3,4"; "7=1,2,3"])
    = inr (sample_blending_modes 9)
  ∧ (20 < length sample_terrain_types)%nat
  ∧ "7=1,2,3" ∈ player_color_palette (sample_world 9 ["0=1,2,3,4"; "7=1,2,3"])
  ∧ (fill blank_line "7=1,2,3").1 ≠ 0
  ∧ (run (init (sample_world 9 ["0=1,2,3,4"; "7=1,2,3"])) (initial_state 0)).1
    = inl MalformedLine.
Proof.
  assert (Hin : "7=1,2,3" ∈ player_color_palette (sample_world 9 ["0=1,2,3,4"; "7=1,2,3"])).
  { apply elem_of_cons; right. apply elem_of_cons. by left. }
  assert (Hbad : (fill blank_line "7=1,2,3").1 ≠ 0) by (vm_compute; discriminate).
  destruct (init_stops_at_rejected_palette_line
              (sample_world 9 ["0=1,2,3,4"; "7=1,2,3"]) sample_terrain_types
              (sample_blending_modes 9) "7=1,2,3" (initial_state 0)
              eq_refl eq_refl sample_terrain_types_count Hin Hbad)
    as (st' & Hrun & _).
  split; [reflexivity|]. split; [reflexivity|].
  split; [exact sample_terrain_types_count|]. split; [exact Hin|].
  split; [exact Hbad|]. by rewrite Hrun.
Defined.

Lemma init_releases_its_temporaries_witness :
  loads (sample_world 9 sample_palette) sample_terrain_types
        (sample_blending_modes 9) sample_colors
  ∧ (20 < length sample_terrain_types)%nat
  ∧ heap_stray (heap_run empty_heap
                  (events_of (init (sample_world 9 sample_palette)) (initial_state 0)))
    = [].
Proof.
  split; [exact sample_loads|]. split; [exact sample_terrain_types_count|].
  by rewrite (init_releases_its_temporaries _ _ _ _ (initial_state 0)
                sample_loads sample_terrain_types_count).
Defined.

Lemma init_destroy_balance_witness :
  loads (sample_world 9 sample_palette) sample_terrain_types
        (sample_blending_modes 9) sample_colors
  ∧ (20 < length sample_terrain_types)%nat
  ∧ heap_live (heap_run empty_heap
                 (events_of (init (sample_world 9 sample_palette) ;; destroy)
                            (initial_state 0)))
    = [ RTable "age/processed/player_color_palette.pal"; RTerrain;
        RTable "age/processed/blending_meta.docx";
        RTable "age/processed/terrain_meta.docx" ].
Proof.
  split; [exact sample_loads|]. split; [exact sample_terrain_types_count|].
  by rewrite (init_destroy_balance _ _ _ _ (initial_state 0)
                sample_loads sample_terrain_types_count).
Defined.

Lemma destroy_again_deletes_released_texture_witness :
  loads (sample_world 9 sample_palette) sample_terrain_types
        (sample_blending_modes 9) sample_colors
  ∧ (20 < length sample_terrain_types)%nat
  ∧ head (events_of destroy (initial_state 0)) = Some (DeleteTexture gaben)
  ∧ RTexture gaben
    ∉ heap_live (heap_run empty_heap
                   (events_of (init (sample_world 9 sample_palette) ;; destroy)
                              (initial_state 0))).
Proof.
  destruct (destroy_again_deletes_released_texture _ _ _ _ (initial_state 0)
              sample_loads sample_terrain_types_count) as (Hhead & Hout & _).
  split; [exact sample_loads|]. split; [exact sample_terrain_types_count|].
  split; [exact (Hhead (initial_state 0)) | exact Hout].
Defined.

Lemma init_twice_repeats_witness :
  loads (sample_world 9 sample_palette) sample_terrain_types
        (sample_blending_modes 9) sample_colors
  ∧ (20 < length sample_terrain_types)%nat
  ∧ events_of (init (sample_world 9 sample_palette) ;; init (sample_world 9 sample_palette))
              (initial_state 0)
    = init_events (Z.of_nat (length sample_terrain_types))
        (Z.of_nat (length (sample_blending_modes 9))) sample_colors
      ++ init_events (Z.of_nat (length sample_terrain_types))
           (Z.of_nat (length (sample_blending_modes 9))) sample_colors.
Proof.
  split; [exact sample_loads|]. split; [exact sample_terrain_types_count|].
  exact (proj1 (init_twice_repeats _ _ _ _ (initial_state 0)
                  sample_loads sample_terrain_types_count)).
Defined.

Lemma gl_calls_in_order_witness :
  loads (sample_world 9 sample_palette) sample_terrain_types
        (sample_blending_modes 9) sample_colors
  ∧ (20 < length sample_terrain_types)%nat
  ∧ gl_run gl_empty
      (events_of (init (sample_world 9 sample_palette) ;; destroy) (initial_state 0))
    = Some gl_empty.
Proof.
  split; [exact sample_loads|]. split; [exact sample_terrain_types_count|].
  exact (proj2 (gl_calls_in_order _ _ _ _ (initial_state 0)
                  sample_loads sample_terrain_types_count)).
Defined.
